(** * babel-plugin-module-resolver: the specifier resolver and its host glue

    A shallow embedding of [src/index.js].  The resolver [mapModule] is
    embedded together with the pieces of the JavaScript string library and of
    Node's [path] module it calls, the alias table is a finite map, the
    filesystem probe [resolve.sync] is an oracle of the host, and every call
    to the probe and every membership test on the alias table is recorded in
    a log, so that "is never consulted" is a statement about that log.  The
    visitors come with the syntax tree they work on, the options hook with
    the [glob] package as a second oracle, and the visitors of
    [src/unnamed/part_000] stand beside those of [src/index.js]. *)

From Stdlib Require Import Ascii String.
From stdpp Require Import gmap strings list fin_maps.
From Equations Require Import Equations.
From Equations.Prop Require Import Logic.

Local Open Scope string_scope.
Local Open Scope list_scope.
Local Open Scope nat_scope.

(** ** JavaScript strings *)

Module Js.

(** [s[0] === c] *)
Definition firstCharIs (c : ascii) (s : string) : bool :=
  match s with
  | String c' _ => if decide (c' = c) then true else false
  | EmptyString => false
  end.

(** [s.split(sep)] for a one-character separator: never the empty list. *)
Fixpoint split (sep : ascii) (s : string) : list string :=
  match s with
  | EmptyString => [EmptyString]
  | String c rest =>
      if decide (c = sep) then EmptyString :: split sep rest
      else match split sep rest with
           | seg :: segs => String c seg :: segs
           | [] => [String c EmptyString]
           end
  end.

(** [segs.join(sep)] *)
Definition join (sep : string) (segs : list string) : string :=
  String.concat sep segs.

(** [segs.pop()], as far as the array is concerned. *)
Definition pop (segs : list string) : list string := removelast segs.

(** [s.slice(n)] *)
Fixpoint drop (n : nat) (s : string) : string :=
  match n, s with
  | S n', String _ rest => drop n' rest
  | _, _ => s
  end.

(** The replacement text of [String.prototype.replace] for a string
    pattern (ECMAScript GetSubstitution with no captures): [$$] is a
    dollar, [$&] the matched text, [$`] the text before the match, [$']
    the text after it; any other dollar stands for itself. *)
Fixpoint getSubstitution (matched before after replacement : string) : string :=
  match replacement with
  | EmptyString => EmptyString
  | String c rest =>
      if decide (c = "$"%char) then
        match rest with
        | String d rest' =>
            if decide (d = "$"%char) then
              String "$" (getSubstitution matched before after rest')
            else if decide (d = "&"%char) then
              matched +:+ getSubstitution matched before after rest'
            else if decide (d = "`"%char) then
              before +:+ getSubstitution matched before after rest'
            else if decide (d = "'"%char) then
              after +:+ getSubstitution matched before after rest'
            else String c (getSubstitution matched before after rest)
        | EmptyString => String c EmptyString
        end
      else String c (getSubstitution matched before after rest)
  end.

(** [s.replace(pattern, replacement)] with a string pattern: only the first
    occurrence is replaced, and [s] is returned when there is none. *)
Definition replace (s pattern replacement : string) : string :=
  match String.index 0 pattern s with
  | Some pos =>
      let before := String.substring 0 pos s in
      let after := drop (pos + String.length pattern) s in
      before +:+ getSubstitution pattern before after replacement +:+ after
  | None => s
  end.

(** [s.replace(/^(npm:)/, '')] *)
Definition stripNpm (s : string) : string :=
  if String.prefix "npm:" s then drop 4 s else s.

(** [s.replace(/\\/g, '/')] *)
Fixpoint backslashesToSlashes (s : string) : string :=
  match s with
  | EmptyString => EmptyString
  | String c rest =>
      String (if decide (c = "\"%char) then "/"%char else c)
             (backslashesToSlashes rest)
  end.

End Js.

(** ** Node's [path] module, POSIX flavour

    [index.js] imports [path] from Node; these definitions follow the
    documented behaviour of [path.posix], on the segments between slashes. *)

Module Path.

Definition segments (p : string) : list string := Js.split "/" p.

Definition isAbsolute (p : string) : bool := Js.firstCharIs "/" p.

Fixpoint lastNonEmpty (segs : list string) : string :=
  match segs with
  | [] => EmptyString
  | seg :: rest =>
      let l := lastNonEmpty rest in
      if decide (l = EmptyString) then seg else l
  end.

(** The last component of a path, trailing slashes ignored. *)
Definition lastComponent (p : string) : string := lastNonEmpty (segments p).

(** The part of a name from its last dot on. *)
Fixpoint fromLastDot (s : string) : option string :=
  match s with
  | EmptyString => None
  | String c rest =>
      match fromLastDot rest with
      | Some e => Some e
      | None => if decide (c = "."%char) then Some s else None
      end
  end.

(** [path.extname]: from the last dot of the last component; empty when
    there is no dot, when the only dot opens the name, and for [..]. *)
Definition extname (p : string) : string :=
  match lastComponent p with
  | EmptyString => EmptyString
  | String c rest =>
      if decide (String c rest = "..") then EmptyString
      else default EmptyString (fromLastDot rest)
  end.

(** [Some stem] when [s = stem ++ suffix]. *)
Definition stripSuffix (suffix s : string) : option string :=
  let n := String.length s - String.length suffix in
  if decide (String.length suffix ≤ String.length s ∧ Js.drop n s = suffix)
  then Some (String.substring 0 n s) else None.

(** [path.basename(p, ext)]: the last component, without [ext] when it ends
    with [ext] and is more than [ext].  (For an [ext] that is neither empty
    nor a suffix of the last component Node has corner cases of its own;
    [replaceExt] never asks for those.) *)
Definition basename (p ext : string) : string :=
  let comp := lastComponent p in
  if decide (ext = EmptyString) then comp
  else if decide (ext = p) then EmptyString
  else match stripSuffix ext comp with
       | Some stem => if decide (stem = EmptyString) then comp else stem
       | None => comp
       end.

Fixpoint dropTrailingEmpty (segs : list string) : list string :=
  match segs with
  | [] => []
  | seg :: rest =>
      match dropTrailingEmpty rest with
      | [] => if decide (seg = EmptyString) then [] else [seg]
      | rest' => seg :: rest'
      end
  end.

(** [path.dirname]: everything before the slash that precedes the last
    component. *)
Definition dirname (p : string) : string :=
  let dir := removelast (dropTrailingEmpty (segments p)) in
  if decide (Js.join "/" dir = EmptyString) then
    if isAbsolute p then "/" else "."
  else if decide (dir = [EmptyString; EmptyString]) then "//"
  else Js.join "/" dir.

(** The segment walk shared by [normalize] and [resolve]: empty segments
    and [.] vanish, [..] removes the segment before it, and is kept at the
    front of a relative path only. [res] is the result so far, reversed. *)
Fixpoint normalizeSegments (allowAboveRoot : bool) (res segs : list string)
  : list string :=
  match segs with
  | [] => rev res
  | seg :: rest =>
      if decide (seg = EmptyString ∨ seg = ".") then
        normalizeSegments allowAboveRoot res rest
      else if decide (seg = "..") then
        match res with
        | prev :: res' =>
            if decide (prev = "..") then
              normalizeSegments allowAboveRoot (".." :: res) rest
            else normalizeSegments allowAboveRoot res' rest
        | [] =>
            normalizeSegments allowAboveRoot
              (if allowAboveRoot then [".."] else []) rest
        end
      else normalizeSegments allowAboveRoot (seg :: res) rest
  end.

Definition endsWithSlash (p : string) : bool :=
  match rev (segments p) with
  | last :: _ :: _ => if decide (last = EmptyString) then true else false
  | _ => false
  end.

(** [path.normalize] *)
Definition normalize (p : string) : string :=
  if decide (p = EmptyString) then "."
  else
    let body :=
      Js.join "/" (normalizeSegments (negb (isAbsolute p)) [] (segments p)) in
    if decide (body = EmptyString) then
      if isAbsolute p then "/" else if endsWithSlash p then "./" else "."
    else
      (if isAbsolute p then "/" else "") +:+ body
        +:+ (if endsWithSlash p then "/" else "").

(** [path.join(a, b)] *)
Definition join (a b : string) : string :=
  if decide (a = EmptyString) then
    if decide (b = EmptyString) then "." else normalize b
  else if decide (b = EmptyString) then normalize a
  else normalize (a +:+ "/" +:+ b).

(** The segments of the absolute path [p] stands for, seen from the
    working directory [cwd] (itself absolute). *)
Definition absoluteSegments (cwd p : string) : list string :=
  normalizeSegments false []
    (segments (if isAbsolute p then p else cwd +:+ "/" +:+ p)).

(** [path.resolve(p)] *)
Definition resolve (cwd p : string) : string :=
  "/" +:+ Js.join "/" (absoluteSegments cwd p).

Fixpoint stripCommon (from to : list string) : list string * list string :=
  match from, to with
  | f :: from', t :: to' =>
      if decide (f = t) then stripCommon from' to' else (from, to)
  | _, _ => (from, to)
  end.

(** [path.relative(from, to)]: the shared leading segments are elided and
    each remaining segment of [from] becomes a [..]. *)
Definition relative (cwd from to : string) : string :=
  let '(up, down) :=
    stripCommon (absoluteSegments cwd from) (absoluteSegments cwd to) in
  Js.join "/" (((λ _, "..") <$> up) ++ down).

End Path.

(** ** The helpers of [./utils] and [./mapToRelative] *)

Module Utils.

(** Modelled from the spec: [utils.js] is not among the sources.  "rewrites
    OS-specific directory separators to forward slashes. No other
    normalization". *)
Definition toPosixPath (modulePath : string) : string :=
  Js.backslashesToSlashes modulePath.

(** Modelled from the spec: [utils.js] is not among the sources.  "if path
    does not already begin with ./ or ../, prepend ./". *)
Definition toLocalPath (p : string) : string :=
  if String.prefix "./" p || String.prefix "../" p then p else "./" +:+ p.

(** Modelled from the spec: [mapToRelative.js] is not among the sources.
    "computes the relative path from the directory containing fromFile to
    toFile, using standard relative-path semantics (shared-prefix elision,
    .. for ascents)"; a path that is not absolute is taken from the working
    directory. *)
Definition mapToRelative (cwd currentFile module : string) : string :=
  Path.relative cwd (Path.dirname currentFile) module.

End Utils.

(** ** The resolver *)

(** What the resolver asks of its surroundings: the working directory of the
    process, which [path.resolve] starts from, and the filesystem probe
    [resolve.sync(request, { basedir, extensions })], which yields the file it
    found, or [None] where the JavaScript function throws. *)
Class Host := {
  cwd : string;
  resolveSync : string → string → list string → option string
}.

(** The plugin options: each of [root], [alias] and [extensions] may be
    left out. *)
Record PluginOpts := {
  root : option (list string);
  alias : option (gmap string string);
  extensions : option (list string)
}.

(** What a run of the resolver consults, in order: a probe of the filesystem,
    or a membership test on the alias table. *)
Inductive event :=
| Probe (request basedir : string) (exts : list string)
| AliasLookup (key : string).

(** A computation that returns a value and the log of what it consulted. *)
Definition M (A : Type) : Type := A * list event.

#[export] Instance M_ret : MRet M := λ A a, (a, []).
#[export] Instance M_bind : MBind M :=
  λ A B f m, let '(a, log1) := m in let '(b, log2) := f a in (b, log1 ++ log2).

Definition returned {A} (m : M A) : A := fst m.
Definition consulted {A} (m : M A) : list event := snd m.

Definition defaultBabelExtensions : list string := [".js"; ".jsx"; ".es"; ".es6"].

(** [Object.assign(memo, { [expose]: value })] for a string [value]: the
    property is written by an ordinary assignment [memo[expose] = value].
    For the name [__proto__] that assignment runs the setter of
    [Object.prototype], which ignores a value that is neither an object nor
    null: [memo] gets no property of that name. *)
Definition objectAssign (memo : gmap string string) (expose value : string)
  : gmap string string :=
  if decide (expose = "__proto__") then memo else <[expose := value]> memo.

(** [Object.keys(alias).reduce(...)]: every key of the option is assigned,
    with its value, to an object that starts empty. *)
Definition createAliasFileMap (pluginOpts : PluginOpts) : gmap string string :=
  let alias := default ∅ (alias pluginOpts) in
  foldl (λ memo expose, objectAssign memo expose (default "" (alias !! expose)))
        ∅ (map_to_list alias).*1.

Definition replaceExt (p ext : string) : string :=
  let filename := Path.basename p (Path.extname p) +:+ ext in
  Path.join (Path.dirname p) filename.

Section Resolver.
Context `{Host}.

(** [resolve.sync], logged. *)
Definition probe (request basedir : string) (exts : list string)
  : M (option string) :=
  (resolveSync request basedir exts, [Probe request basedir exts]).

(** [{}.hasOwnProperty.call(aliasMapping, m)], logged. *)
Definition hasOwnProperty (aliasMapping : gmap string string) (m : string)
  : M bool :=
  (bool_decide (is_Some (aliasMapping !! m)), [AliasLookup m]).

(** The body of the [try] once the probe has answered: lines 36 to 40. *)
Definition mapResolved (source file resolvedSourceFile : string) : string :=
  let realSourceFileExtension := Path.extname resolvedSourceFile in
  let sourceFileExtension := Path.extname source in
  let ext :=
    if decide (realSourceFileExtension = sourceFileExtension)
    then realSourceFileExtension else "" in
  Utils.toLocalPath
    (Utils.toPosixPath
       (replaceExt (Utils.mapToRelative cwd file resolvedSourceFile) ext)).

(** The [for] loop over the root directories, from index [i] on; [Some] is
    the value of its [return], [None] means the loop ran to its end. *)
Fixpoint searchRoots (source file : string) (pluginOpts : PluginOpts)
  (rootDirs : list string) : M (option string) :=
  match rootDirs with
  | [] => mret None
  | rootDir :: rest =>
      let extensions :=
        default defaultBabelExtensions (extensions pluginOpts) in
      resolved ← probe ("./" +:+ source) (Path.resolve cwd rootDir) extensions;
      match resolved with
      | Some resolvedSourceFile =>
          mret (Some (mapResolved source file resolvedSourceFile))
      | None => searchRoots source file pluginOpts rest
      end
  end.

(** The [while] loop of the alias phase; it hands back [aliasPath]
    ([None] while it is undefined) and what is left of [moduleSplit]. *)
Equations aliasLoop (aliasMapping : gmap string string)
  (moduleSplit : list string) : M (option string * list string)
  by wf (length moduleSplit) lt :=
  aliasLoop aliasMapping [] := mret (None, []);
  aliasLoop aliasMapping (seg :: segs) :=
    let m := Js.join "/" (seg :: segs) in
    found ← hasOwnProperty aliasMapping m;
    if (found : bool) then mret (aliasMapping !! m, seg :: segs)
    else aliasLoop aliasMapping (Js.pop (seg :: segs)).
Next Obligation.
  unfold Js.pop. clear. revert seg.
  induction segs as [|s segs IH]; intros seg; simpl in *; [lia|].
  specialize (IH s). lia.
Qed.

Definition mapModule (source file : string) (pluginOpts : PluginOpts)
  : M (option string) :=
  if Js.firstCharIs "." source then mret None
  else
    let rootDirs := default [] (root pluginOpts) in
    inRoot ← searchRoots source file pluginOpts rootDirs;
    match inRoot with
    | Some mapped => mret (Some mapped)
    | None =>
        let aliasMapping := createAliasFileMap pluginOpts in
        let moduleSplit := Js.split "/" source in
        '(aliasPath, moduleSplit) ← aliasLoop aliasMapping moduleSplit;
        match aliasPath with
        | None => mret None
        | Some aliasPath =>
            if decide (aliasPath = "") then mret None
            else
              let aliasPath := Js.stripNpm aliasPath in
              let newPath :=
                Js.replace source (Js.join "/" moduleSplit) aliasPath in
              if negb (Js.firstCharIs "." aliasPath) then mret (Some newPath)
              else
                mret (Some (Utils.toLocalPath
                              (Utils.toPosixPath
                                 (Utils.mapToRelative cwd file newPath))))
        end
    end.

End Resolver.

(** ** The host glue: the syntax tree and the visitors

    The tree has the node kinds the plugin inspects; [OtherNode] stands for
    any other leaf.  A member of an object literal is a [key: value] pair or
    a spread element, which has no key (object methods are not modelled). *)

Inductive property_of (N : Type) :=
| ObjectProperty (key value : N)
| SpreadProperty (argument : N).
Arguments ObjectProperty {N} key value.
Arguments SpreadProperty {N} argument.

#[local] Unset Elimination Schemes.
Inductive node :=
| StringLiteral (value : string)
| Identifier (name : string)
| MemberExpression (object property : node)
| CallExpression (callee : node) (arguments : list node)
| ObjectExpression (properties : list (property_of node))
| OtherNode (type : string).
#[local] Set Elimination Schemes.

Abbreviation property := (property_of node).

(** [state.file.opts.filename] and [state.opts] *)
Record State := {
  file_opts_filename : string;
  opts : PluginOpts
}.

Fixpoint nodeSize (n : node) : nat :=
  match n with
  | MemberExpression object property => S (nodeSize object + nodeSize property)
  | CallExpression callee arguments =>
      S (nodeSize callee + list_sum (map nodeSize arguments))
  | ObjectExpression properties =>
      S (list_sum
           (map (λ p, match p with
                      | ObjectProperty key value => nodeSize key + nodeSize value
                      | SpreadProperty argument => nodeSize argument
                      end) properties))
  | _ => 1
  end.

(** The later of two optional results. *)
Definition orLater {A} (earlier later : option A) : option A :=
  match later with Some _ => later | None => earlier end.

(** The call expression a traversal of [n] (itself included) leaves last:
    children are visited in order and a node is left after its children. *)
Fixpoint lastCall (n : node) : option node :=
  match n with
  | CallExpression _ _ => Some n
  | MemberExpression object property =>
      orLater (lastCall object) (lastCall property)
  | ObjectExpression properties =>
      foldr (λ p later,
               orLater
                 match p with
                 | ObjectProperty key value =>
                     orLater (lastCall key) (lastCall value)
                 | SpreadProperty argument => lastCall argument
                 end later) None properties
  | _ => None
  end.

(** The same for [nodePath.traverse], which visits what is below a call
    expression: its callee, then its arguments. *)
Definition lastCallBelow (n : node) : option node :=
  match n with
  | CallExpression callee arguments =>
      orLater (lastCall callee)
              (foldr (λ a later, orLater (lastCall a) later) None arguments)
  | _ => None
  end.

Definition isIdentifier (n : node) (name : string) : bool :=
  match n with
  | Identifier name' => bool_decide (name' = name)
  | _ => false
  end.

Definition isImportMethodCall (methodName : string) (nodePath : node) : bool :=
  match nodePath with
  | CallExpression callee _ =>
      isIdentifier callee methodName ||
      match callee with
      | MemberExpression object _ => isIdentifier object methodName
      | _ => false
      end
  | _ => false
  end.

Definition isRequireCall : node → bool := isImportMethodCall "require".

(** The guard of [isProxyquireCall] before it traverses: the callee is
    [<call>.load]. *)
Definition isLoadOfCall (nodePath : node) : bool :=
  match nodePath with
  | CallExpression (MemberExpression (CallExpression _ _) property) _ =>
      isIdentifier property "load"
  | _ => false
  end.

(** [isProxyquireCall]: the traversal overwrites its flag at every call
    expression it leaves, so the flag ends as the answer for the last one
    ([false] when there is none). *)
Equations isProxyquireCall (nodePath : node) : bool
  by wf (nodeSize nodePath) lt :=
  isProxyquireCall nodePath with inspect (lastCallBelow nodePath) := {
    | exist _ (Some childPath) _ =>
        isImportMethodCall "proxyquire" nodePath
        || (isLoadOfCall nodePath && isProxyquireCall childPath)
    | exist _ None _ =>
        isImportMethodCall "proxyquire" nodePath }.
Next Obligation.
  assert (Hor : ∀ (a b : option node) c,
             orLater a b = Some c → a = Some c ∨ b = Some c)
    by (intros a [b|] c; simpl; auto).
  assert (Hsize : ∀ n c, lastCall n = Some c → nodeSize c ≤ nodeSize n).
  { fix IH 1. intros [v|x|o p|f args|props|t] c; simpl; try discriminate.
    - intros [Hc|Hc]%Hor; apply IH in Hc; lia.
    - intros [= <-]. simpl. lia.
    - induction props as [|[k v|a] props IHp]; simpl; [discriminate|..].
      + intros [[Hc|Hc]%Hor|Hc]%Hor;
          [apply IH in Hc|apply IH in Hc|apply IHp in Hc]; lia.
      + intros [Hc|Hc]%Hor; [apply IH in Hc|apply IHp in Hc]; lia. }
  destruct nodePath as [v|x|o p|f args|props|t]; simpl in *; try discriminate.
  match goal with E : orLater _ _ = Some _ |- _ => apply Hor in E as [Hc|Hc] end.
  - apply Hsize in Hc. lia.
  - enough (nodeSize childPath ≤ list_sum (map nodeSize args)) by lia.
    clear -Hc Hsize Hor.
    induction args as [|a args IHa]; simpl in *; [discriminate|].
    apply Hor in Hc as [Hc|Hc]; [apply Hsize in Hc|apply IHa in Hc]; lia.
Qed.

(** JavaScript truthiness of a string: [""] is falsy. *)
Definition truthy (s : string) : bool := negb (bool_decide (s = "")).

Section Visitors.
Context `{Host}.

(** [module] and [filename] are [None] where the JavaScript value is
    [undefined]. *)
Definition transformModulePath (module : option node) (state : State)
  (filename : option string) : option node :=
  match module with
  | Some (StringLiteral value) =>
      let file :=
        match filename with
        | Some f => if truthy f then f else state.(file_opts_filename)
        | None => state.(file_opts_filename)
        end in
      match returned (mapModule value file state.(opts)) with
      | Some modulePath =>
          if truthy modulePath then Some (StringLiteral modulePath) else None
      | None => None
      end
  | _ => None
  end.

(** [nodePath.replaceWith(...)]: the result is the node now at the path.
    The visitor hands call expressions only to these functions. *)
Definition transformCallExpression (nodePath modulePath : node)
  (restArgsIndex : nat) (args : option (list node)) : node :=
  match nodePath with
  | CallExpression callee arguments =>
      let callArgs :=
        match args with
        | Some args => modulePath :: args
        | None => modulePath :: drop restArgsIndex arguments
        end in
      CallExpression callee callArgs
  | _ => nodePath
  end.

Definition propertyKey (p : property) : option node :=
  match p with
  | ObjectProperty key _ => Some key
  | SpreadProperty _ => None
  end.

Definition transformObjectExpression (modulePath : string)
  (properties : list property) (state : State) : node :=
  let resolved :=
    map (λ property,
           match transformModulePath (propertyKey property) state
                   (Some modulePath) with
           | Some propPath =>
               match property with
               | ObjectProperty _ value => ObjectProperty propPath value
               | SpreadProperty _ => property
               end
           | None => property
           end) properties in
  ObjectExpression resolved.

Definition callArguments (nodePath : node) : list node :=
  match nodePath with
  | CallExpression _ arguments => arguments
  | _ => []
  end.

Definition transformRequireCall (nodePath : node) (state : State) : node :=
  if negb (isRequireCall nodePath) then nodePath
  else
    match transformModulePath (callArguments nodePath !! 0) state None with
    | Some modulePath => transformCallExpression nodePath modulePath 1 None
    | None => nodePath
    end.

Definition transformProxyquireCall (nodePath : node) (state : State) : node :=
  if negb (isProxyquireCall nodePath) then nodePath
  else
    match transformModulePath (callArguments nodePath !! 0) state None with
    | Some modulePath =>
        let nodePath' :=
          match callArguments nodePath !! 1, modulePath with
          | Some (ObjectExpression properties), StringLiteral value =>
              let resolvedStubs :=
                transformObjectExpression value properties state in
              transformCallExpression nodePath modulePath 2
                (Some [resolvedStubs])
          | _, _ => nodePath
          end in
        transformCallExpression nodePath' modulePath 1 None
    | None => nodePath
    end.

(** Both transforms return [undefined], so [a || b] runs the one after the
    other. *)
Definition transformMethodCall (nodePath : node) (state : State) : node :=
  transformProxyquireCall (transformRequireCall nodePath state) state.

End Visitors.

(** ** Import declarations

    [import specifiers from source]: the visitor rewrites the source and
    keeps the specifiers, which it never looks into. *)

Inductive importDeclaration :=
| ImportDeclaration (specifiers : list node) (source : node).

Definition importSource (nodePath : importDeclaration) : node :=
  match nodePath with ImportDeclaration _ source => source end.

Section ImportVisitor.
Context `{Host}.

Definition transformImportCall (nodePath : importDeclaration) (state : State)
  : importDeclaration :=
  match transformModulePath (Some (importSource nodePath)) state None with
  | Some modulePath =>
      match nodePath with
      | ImportDeclaration specifiers _ => ImportDeclaration specifiers modulePath
      end
  | None => nodePath
  end.

End ImportVisitor.

(** ** The visitors with their steps written out

    The file [src/unnamed/part_000] has the same resolver and the same
    predicates, and visitors that call [mapModule] themselves and build the
    new call in place. *)

Module Inline.
Section Visitors.
Context `{Host}.

Definition transformRequireCall (nodePath : node) (state : State) : node :=
  if negb (isRequireCall nodePath) then nodePath
  else
    match nodePath, callArguments nodePath !! 0 with
    | CallExpression callee _, Some (StringLiteral value) =>
        match returned (mapModule value state.(file_opts_filename)
                          state.(opts)) with
        | Some modulePath =>
            if truthy modulePath
            then CallExpression callee [StringLiteral modulePath]
            else nodePath
        | None => nodePath
        end
    | _, _ => nodePath
    end.

(** The [map] over the members of the stub table. *)
Definition resolveStub (modulePath : string) (state : State)
  (property : property_of node) : property_of node :=
  match property with
  | ObjectProperty (StringLiteral value) propertyValue =>
      match returned (mapModule value modulePath state.(opts)) with
      | Some stubModulePath =>
          if truthy stubModulePath
          then ObjectProperty (StringLiteral stubModulePath) propertyValue
          else property
      | None => property
      end
  | _ => property
  end.

Definition transformProxyquireCall (nodePath : node) (state : State) : node :=
  if negb (isProxyquireCall nodePath) then nodePath
  else
    match nodePath, callArguments nodePath !! 0 with
    | CallExpression callee arguments, Some (StringLiteral value) =>
        match returned (mapModule value state.(file_opts_filename)
                          state.(opts)) with
        | Some modulePath =>
            if truthy modulePath
            then
              match arguments !! 1 with
              | Some (ObjectExpression properties) =>
                  let resolvedStubs :=
                    ObjectExpression
                      (map (resolveStub modulePath state) properties) in
                  CallExpression callee
                    (StringLiteral modulePath :: resolvedStubs
                       :: drop 2 arguments)
              | _ =>
                  CallExpression callee
                    (StringLiteral modulePath :: drop 1 arguments)
              end
            else nodePath
        | None => nodePath
        end
    | _, _ => nodePath
    end.

Definition transformMethodCall (nodePath : node) (state : State) : node :=
  transformProxyquireCall (transformRequireCall nodePath state) state.

Definition transformImportCall (nodePath : importDeclaration) (state : State)
  : importDeclaration :=
  match nodePath with
  | ImportDeclaration specifiers (StringLiteral value) =>
      match returned (mapModule value state.(file_opts_filename)
                        state.(opts)) with
      | Some modulePath =>
          if truthy modulePath
          then ImportDeclaration specifiers (StringLiteral modulePath)
          else nodePath
      | None => nodePath
      end
  | _ => nodePath
  end.

End Visitors.
End Inline.

(** ** The options hook

    [manipulateOptions] runs once, before any file is visited: it finds the
    options the plugin was listed with and replaces every glob pattern among
    the root directories by the directories it matches. *)

(** What the hook asks of the [glob] package. *)
Class Glob := {
  hasMagic : string → bool;
  sync : string → list string
}.

(** An entry of [babelOptions.plugins]: the plugin, known by its identity,
    and the options it was listed with, [None] where there are none. *)
Definition pluginEntry : Type := nat * option PluginOpts.

Section Options.
Context `{Glob}.

(** The [reduce] over the root directories, lines 175 to 180. *)
Definition resolveRootDirs (rootDirs : list string) : list string :=
  foldl (λ resolvedDirs dirPath,
           if hasMagic dirPath then resolvedDirs ++ sync dirPath
           else resolvedDirs ++ [dirPath])
        [] rootDirs.

(** [this] is the plugin the hook belongs to.  The result is the plugin list
    after the hook has run, or [None] where it throws: [find] gave
    [undefined], or the entry has no options to read [root] from.  Every
    entry is taken to have an options object of its own. *)
Definition manipulateOptions (this : nat) (plugins : list pluginEntry)
  : option (list pluginEntry) :=
  match list_find (λ plugin : pluginEntry, plugin.1 = this) plugins with
  | Some (i, (_, Some findPluginOptions)) =>
      match root findPluginOptions with
      | Some rootDirs =>
          let findPluginOptions' :=
            {| root := Some (resolveRootDirs rootDirs);
               alias := alias findPluginOptions;
               extensions := extensions findPluginOptions |} in
          Some (<[i := (this, Some findPluginOptions')]> plugins)
      | None => Some plugins
      end
  | _ => None
  end.

End Options.

(** ** Vocabulary of the statements *)

(** The alias table of a configuration, empty when [alias] is left out. *)
Definition aliasTable (pluginOpts : PluginOpts) : gmap string string :=
  default ∅ (alias pluginOpts).

(** The extension list a run probes with. *)
Definition probeExtensions (pluginOpts : PluginOpts) : list string :=
  match extensions pluginOpts with
  | Some exts => exts
  | None => [".js"; ".jsx"; ".es"; ".es6"]
  end.

(** What the filesystem answers when [source] is looked for under the root
    directory [rootDir], and the entry this leaves in the log. *)
Definition rootProbe `{Host} (source : string) (pluginOpts : PluginOpts)
  (rootDir : string) : option string :=
  resolveSync ("./" +:+ source) (Path.resolve cwd rootDir)
    (probeExtensions pluginOpts).

Definition rootProbeEvent `{Host} (source : string) (pluginOpts : PluginOpts)
  (rootDir : string) : event :=
  Probe ("./" +:+ source) (Path.resolve cwd rootDir) (probeExtensions pluginOpts).

(** The first [k] segments of a specifier, joined: a candidate alias key. *)
Definition prefixKey (source : string) (k : nat) : string :=
  Js.join "/" (take k (Js.split "/" source)).

(** The candidate keys from the whole specifier down to its first [k]
    segments, longest first. *)
Definition keysDownTo (source : string) (k : nat) : list string :=
  prefixKey source <$> rev (seq k (S (length (Js.split "/" source)) - k)).

(** The first [k] segments are the longest prefix of [source] that is a key
    of the table, and [target] is what the table holds for it. *)
Definition longestAliasMatch (table : gmap string string) (source : string)
  (k : nat) (target : string) : Prop :=
  1 ≤ k ≤ length (Js.split "/" source) ∧
  table !! prefixKey source k = Some target ∧
  ∀ j, k < j ≤ length (Js.split "/" source) → table !! prefixKey source j = None.

(** No prefix of [source] is a key of the table. *)
Definition noAliasMatch (table : gmap string string) (source : string) : Prop :=
  ∀ j, 1 ≤ j ≤ length (Js.split "/" source) → table !! prefixKey source j = None.

(** What is left of [source] after its first [k] segments. *)
Definition suffixAfter (source : string) (k : nat) : string :=
  Js.drop (String.length (prefixKey source k)) source.

(** No dollar in a replacement text, so that [replace] reads it as it is. *)
Fixpoint noDollar (s : string) : bool :=
  match s with
  | EmptyString => true
  | String c rest => negb (bool_decide (c = "$"%char)) && noDollar rest
  end.

(** What the alias phase returns for a target that is neither empty nor
    holds a dollar: the target without its [npm:] marker, with the rest of
    the specifier attached; as it is for a bare package, and made relative to
    the importing file when the target starts with a dot. *)
Definition aliasRewrite `{Host} (file target suffix : string) : string :=
  let replaced := Js.stripNpm target +:+ suffix in
  if Js.firstCharIs "." (Js.stripNpm target)
  then Utils.toLocalPath
         (Utils.toPosixPath (Utils.mapToRelative cwd file replaced))
  else replaced.

(** A member of a stub table, rewritten with [parent] as the importing file,
    in the words of the spec: "each key is independently re-resolved [...].
    Values attached to each key are passed through unchanged"; a key without
    a rewrite, or with an empty one, which the host takes for none, stays as
    it is, and so does a member whose key is not a string literal. *)
Definition rewriteStub `{Host} (pluginOpts : PluginOpts) (parent : string)
  (stub : property) : property :=
  match stub with
  | ObjectProperty (StringLiteral key) value =>
      match returned (mapModule key parent pluginOpts) with
      | Some rewritten =>
          if decide (rewritten = "") then stub
          else ObjectProperty (StringLiteral rewritten) value
      | None => stub
      end
  | _ => stub
  end.

Fixpoint noSlash (s : string) : bool :=
  match s with
  | EmptyString => true
  | String c rest => negb (bool_decide (c = "/"%char)) && noSlash rest
  end.

(** A file or directory name: not empty, no slash, neither [.] nor [..]. *)
Definition isPlainName (s : string) : bool :=
  noSlash s && negb (bool_decide (s = "")) && negb (bool_decide (s = "."))
  && negb (bool_decide (s = "..")).

(** The directory part of a normalized relative path: some [..] and then
    names. *)
Fixpoint isRelativeDirs (dirs : list string) : bool :=
  match dirs with
  | [] => true
  | d :: rest =>
      if decide (d = "..") then isRelativeDirs rest else forallb isPlainName dirs
  end.

(** A file name without its extension, as [replaceExt] computes it. *)
Definition fileStem (name : string) : string :=
  Path.basename name (Path.extname name).

(** The call expression a traversal of the arguments of a call leaves
    last. *)
Definition lastCallIn (arguments : list node) : option node :=
  foldr (λ a later, orLater (lastCall a) later) None arguments.

(** What a member of an object literal holds beside its key. *)
Definition propertyValue (p : property) : node :=
  match p with
  | ObjectProperty _ value => value
  | SpreadProperty argument => argument
  end.

(** What a root directory entry stands for after the options hook: the
    directories a glob pattern matches, or the entry itself. *)
Definition expandRoot `{Glob} (dirPath : string) : list string :=
  if hasMagic dirPath then sync dirPath else [dirPath].

(** ** A host to run examples on

    A project at [/proj] whose filesystem holds the given files, probed as
    Node resolves a file: the request itself, then the request with each
    extension in turn. *)

Definition probeFiles (files : list string) (request basedir : string)
  (exts : list string) : option string :=
  let base := Path.resolve basedir request in
  head (filter (λ f, f ∈ files) (base :: ((λ e, base +:+ e) <$> exts))).

Definition projectHost (files : list string) : Host :=
  {| cwd := "/proj"; resolveSync := probeFiles files |}.

(** A tree in the manner of the repository's test examples. *)
Definition exampleFiles : list string :=
  [ "/proj/test/examples/components/c1.js";
    "/proj/test/examples/components/c2.js";
    "/proj/test/examples/components/sub/sub1.js";
    "/proj/test/examples/components/sub/sub1.css";
    "/proj/test/examples/components/sub/custom.modernizr3.js";
    "/proj/test/examples/foo/c1.js";
    "/proj/test/examples/foo/bar.js";
    "/proj/test/examples/foo/bar/x.js" ].

Definition exampleHost : Host := projectHost exampleFiles.

(** A configuration with the given roots and aliases and no [extensions]. *)
Definition config (roots : list string) (aliases : list (string * string))
  : PluginOpts :=
  {| root := Some roots; alias := Some (list_to_map aliases); extensions := None |}.

Definition exampleRoots : list string :=
  ["./test/examples/components"; "./test/examples/foo"].

Definition exampleAliases : list (string * string) :=
  [ ("utils", "./src/mylib/subfolder/utils");
    ("awesome/components", "./src/components");
    ("abstract", "npm:concrete");
    ("underscore", "lodash") ].

(** A project whose two roots both hold a dot-file module. *)
Definition dotfileHost : Host :=
  projectHost [ "/proj/test/examples/components/.hidden.js";
                "/proj/test/examples/foo/.hidden.js" ].

(** A project with a dot-directory under its root. *)
Definition dotdirHost : Host :=
  projectHost [ "/proj/test/examples/components/.storybook/main.js" ].

(** A [glob] for the examples: a pattern is an entry with a star, and the
    one pattern [./packages/*] matches two directories. *)
Definition exampleGlob : Glob :=
  {| hasMagic dirPath :=
       bool_decide ("*"%char ∈ list_ascii_of_string dirPath);
     sync dirPath :=
       if decide (dirPath = "./packages/*")
       then ["./packages/core"; "./packages/ui"] else [] |}.

(** * Facts *)

(** ** The path functions on the examples of Node's documentation *)

Example extname_examples :
  Path.extname <$> ["index.html"; "index.coffee.md"; "index."; "index";
                    ".index"; ".index.md"; ".."; "a.b/c"]
  = [".html"; ".md"; "."; ""; ""; ".md"; ""; ""].
Proof. reflexivity. Qed.

Example basename_examples :
  Path.basename "/foo/bar/baz/asdf/quux.html" "" = "quux.html" ∧
  Path.basename "/foo/bar/baz/asdf/quux.html" ".html" = "quux" ∧
  Path.basename "/foo/bar/" "" = "bar".
Proof. split_and!; reflexivity. Qed.

Example dirname_examples :
  Path.dirname <$> ["/foo/bar/baz/asdf/quux"; "/foo"; "foo"; "foo/"; "/"; ""]
  = ["/foo/bar/baz/asdf"; "/"; "."; "."; "/"; "."].
Proof. reflexivity. Qed.

Example normalize_examples :
  Path.normalize <$> ["/foo/bar//baz/asdf/quux/.."; "./a/../b/"; ""; "../x/.."]
  = ["/foo/bar/baz/asdf"; "b/"; "."; ".."].
Proof. reflexivity. Qed.

Example join_examples :
  Path.join "/foo" "bar" = "/foo/bar" ∧ Path.join "foo/baz" ".." = "foo" ∧
  Path.join "" "" = ".".
Proof. split_and!; reflexivity. Qed.

Example resolve_examples :
  Path.resolve "/home/myself/node" "/foo/bar/./baz" = "/foo/bar/baz" ∧
  Path.resolve "/home/myself/node" "wwwroot/../static" = "/home/myself/node/static".
Proof. split; reflexivity. Qed.

Example relative_examples :
  Path.relative "/" "/data/orandea/test/aaa" "/data/orandea/impl/bbb"
  = "../../impl/bbb".
Proof. reflexivity. Qed.

(** [replaceExt] on the paths of the repository's tests. *)
Example replaceExt_examples :
  replaceExt "test/examples/components/c1.js" "" = "test/examples/components/c1" ∧
  replaceExt "sub/sub1.css" ".css" = "sub/sub1.css" ∧
  replaceExt "sub/custom.modernizr3.js" "" = "sub/custom.modernizr3" ∧
  replaceExt "c2.js" "" = "c2".
Proof. split_and!; reflexivity. Qed.

(** ** Strings *)

Lemma str_app_cons c (s t : string) : String c s +:+ t = String c (s +:+ t).
Proof. done. Qed.

Lemma str_app_nil_l (s : string) : "" +:+ s = s.
Proof. done. Qed.

Lemma str_app_nil_r (s : string) : s +:+ "" = s.
Proof. induction s as [|c s IH]; [done|]. by rewrite str_app_cons, IH. Qed.

Lemma str_app_assoc (s t u : string) : (s +:+ t) +:+ u = s +:+ t +:+ u.
Proof. induction s as [|c s IH]; [done|]. by rewrite !str_app_cons, IH. Qed.

Lemma str_app_length (s t : string) :
  String.length (s +:+ t) = String.length s + String.length t.
Proof. induction s as [|c s IH]; [done|]. rewrite str_app_cons. cbn. by rewrite IH. Qed.

Lemma str_drop_app (s t : string) : Js.drop (String.length s) (s +:+ t) = t.
Proof. induction s as [|c s IH]; [by destruct t|]. done. Qed.

Lemma str_drop_all (s : string) : Js.drop (String.length s) s = "".
Proof. by induction s. Qed.

Lemma str_prefix_app (s t : string) : String.prefix s (s +:+ t) = true.
Proof.
  induction s as [|c s IH]; [by destruct t|].
  rewrite str_app_cons. cbn. destruct (ascii_dec c c); [done|congruence].
Qed.

Lemma js_split_nonempty sep s : Js.split sep s ≠ [].
Proof.
  destruct s as [|c s]; cbn; [done|].
  case_decide; [done|]. by destruct (Js.split sep s).
Qed.

Lemma js_join_cons sep seg segs :
  segs ≠ [] → Js.join sep (seg :: segs) = seg +:+ sep +:+ Js.join sep segs.
Proof. by destruct segs. Qed.

Lemma js_join_split (s : string) : Js.join "/" (Js.split "/" s) = s.
Proof.
  induction s as [|c s IH]; [done|]. cbn.
  pose proof (js_split_nonempty "/" s) as Hne.
  case_decide as Hc.
  - subst c. rewrite js_join_cons by done. by rewrite IH.
  - destruct (Js.split "/" s) as [|seg segs]; [done|].
    destruct segs as [|seg' segs].
    + cbn in *. by rewrite IH.
    + rewrite js_join_cons in IH by done. rewrite js_join_cons by done.
      by rewrite str_app_cons, IH.
Qed.

Lemma js_join_app sep (l1 l2 : list string) :
  l1 ≠ [] → l2 ≠ [] →
  Js.join sep (l1 ++ l2) = Js.join sep l1 +:+ sep +:+ Js.join sep l2.
Proof.
  intros H1 H2. induction l1 as [|x l1 IH]; [done|].
  destruct l1 as [|y l1].
  - cbn [app]. by rewrite js_join_cons.
  - rewrite <-app_comm_cons, !js_join_cons by done.
    rewrite IH by done. by rewrite !str_app_assoc.
Qed.

(** A specifier is its first [k] segments followed by the rest. *)
Lemma prefixKey_suffixAfter source k :
  source = prefixKey source k +:+ suffixAfter source k.
Proof.
  unfold suffixAfter, prefixKey.
  pose proof (take_drop k (Js.split "/" source)) as Htd.
  pose proof (js_join_split source) as Hj.
  destruct (take k (Js.split "/" source)) as [|x l1] eqn:E1.
  { by destruct source. }
  destruct (drop k (Js.split "/" source)) as [|y l2] eqn:E2.
  - rewrite (right_id_L [] (++)) in Htd. rewrite Htd, Hj.
    by rewrite str_drop_all, str_app_nil_r.
  - rewrite <-Htd, js_join_app in Hj by done.
    rewrite <-Hj at 2. rewrite str_drop_app. done.
Qed.

Lemma prefixKey_all source :
  prefixKey source (length (Js.split "/" source)) = source.
Proof. unfold prefixKey. rewrite firstn_all. apply js_join_split. Qed.

Lemma index_prefix (key suffix : string) :
  String.index 0 key (key +:+ suffix) = Some 0.
Proof.
  pose proof (str_prefix_app key suffix) as Hp.
  destruct (key +:+ suffix) as [|c s] eqn:E.
  - destruct key; [done|discriminate].
  - cbn [String.index]. by rewrite Hp.
Qed.

Lemma getSubstitution_noDollar matched before after replacement :
  noDollar replacement = true →
  Js.getSubstitution matched before after replacement = replacement.
Proof.
  induction replacement as [|c r IH]; [done|]. cbn.
  intros [Hc Hr]%andb_true_iff. apply negb_true_iff, bool_decide_eq_false in Hc.
  case_decide; [done|]. by rewrite IH.
Qed.

(** [source.replace(key, target)] when [key] opens [source]: the key goes, the
    rest stays. *)
Lemma replace_prefix (key suffix replacement : string) :
  Js.replace (key +:+ suffix) key replacement
  = Js.getSubstitution key "" suffix replacement +:+ suffix.
Proof.
  unfold Js.replace. rewrite index_prefix. cbn [Nat.add].
  rewrite str_drop_app.
  assert (String.substring 0 0 (key +:+ suffix) = "") as ->
    by by destruct (key +:+ suffix).
  reflexivity.
Qed.

Lemma stripNpm_marker (t : string) : Js.stripNpm ("npm:" +:+ t) = t.
Proof. unfold Js.stripNpm. by rewrite str_prefix_app. Qed.

Lemma stripNpm_plain (t : string) :
  String.prefix "npm:" t = false → Js.stripNpm t = t.
Proof. unfold Js.stripNpm. by intros ->. Qed.

(** ** The alias table *)

Lemma foldl_assign_lookup (f : string → string) (keys : list string)
  (memo : gmap string string) (k : string) :
  k ≠ "__proto__" →
  foldl (λ memo expose, objectAssign memo expose (f expose)) memo keys !! k
  = if decide (k ∈ keys) then Some (f k) else memo !! k.
Proof.
  intros Hk. revert memo.
  induction keys as [|e keys IH]; intros memo; cbn [foldl].
  - by rewrite decide_False by apply not_elem_of_nil.
  - rewrite IH. destruct (decide (k ∈ keys)) as [Hin|Hin].
    + by rewrite decide_True by (by right).
    + unfold objectAssign. destruct (decide (k = e)) as [->|Hne].
      * rewrite (decide_False (P := e = "__proto__")) by done.
        rewrite lookup_insert_eq. by rewrite decide_True by (by left).
      * rewrite (decide_False (P := k ∈ e :: keys))
          by (by intros [?|?]%elem_of_cons).
        case_decide; [done|]. by rewrite lookup_insert_ne.
Qed.

Lemma foldl_assign_proto (f : string → string) (keys : list string)
  (memo : gmap string string) :
  foldl (λ memo expose, objectAssign memo expose (f expose)) memo keys
    !! "__proto__"
  = memo !! "__proto__".
Proof.
  revert memo. induction keys as [|e keys IH]; intros memo; cbn [foldl]; [done|].
  rewrite IH. unfold objectAssign. case_decide; [done|].
  by rewrite lookup_insert_ne.
Qed.

(** The table is built "with no key transformation": it holds the configured
    entries, but for one under the key [__proto__], which the assignment
    loses. *)
Lemma createAliasFileMap_lookup (pluginOpts : PluginOpts) (key : string) :
  createAliasFileMap pluginOpts !! key
  = if decide (key = "__proto__") then None else aliasTable pluginOpts !! key.
Proof.
  unfold createAliasFileMap, aliasTable.
  set (table := default ∅ (alias pluginOpts)).
  case_decide as Hkey; [subst key; by rewrite foldl_assign_proto|].
  rewrite foldl_assign_lookup by done.
  case_decide as Hin.
  - apply list_elem_of_fmap in Hin as [[k' v] [-> Hin]].
    apply elem_of_map_to_list in Hin. simpl. by rewrite Hin.
  - destruct (table !! key) as [v|] eqn:E; [|done].
    exfalso. apply Hin. apply list_elem_of_fmap.
    exists (key, v). split; [done|]. by apply elem_of_map_to_list.
Qed.

(** ** The log monad *)

Lemma bind_run {A B} (m : M A) (f : A → M B) :
  m ≫= f = ((f m.1).1, m.2 ++ (f m.1).2).
Proof. unfold mbind, M_bind. destruct m as [a l1]. simpl. by destruct (f a). Qed.

(** ** The search under the root directories *)

Section RootSearch.
Context `{Host}.
Variables (source file : string) (pluginOpts : PluginOpts).

Lemma probe_run rootDir :
  probe ("./" +:+ source) (Path.resolve cwd rootDir)
        (default defaultBabelExtensions (extensions pluginOpts))
  = (rootProbe source pluginOpts rootDir,
     [rootProbeEvent source pluginOpts rootDir]).
Proof.
  unfold probe, rootProbe, rootProbeEvent, probeExtensions.
  by destruct (extensions pluginOpts).
Qed.

(** All roots fail: each one is probed, in order, and the loop ends without a
    value. *)
Lemma searchRoots_none (rootDirs : list string) :
  (∀ d, d ∈ rootDirs → rootProbe source pluginOpts d = None) →
  searchRoots source file pluginOpts rootDirs
  = (None, rootProbeEvent source pluginOpts <$> rootDirs).
Proof.
  induction rootDirs as [|d rest IH]; intros Hfail; [done|].
  cbn [searchRoots]. rewrite probe_run, bind_run. cbn [fst snd].
  rewrite (Hfail d) by set_solver.
  rewrite IH by (intros; apply Hfail; set_solver). done.
Qed.

(** The first root that resolves ends the loop: the roots before it were
    probed, the roots after it are not. *)
Lemma searchRoots_first (before after : list string) (rootDir resolved : string) :
  (∀ d, d ∈ before → rootProbe source pluginOpts d = None) →
  rootProbe source pluginOpts rootDir = Some resolved →
  searchRoots source file pluginOpts (before ++ rootDir :: after)
  = (Some (mapResolved source file resolved),
     rootProbeEvent source pluginOpts <$> (before ++ [rootDir])).
Proof.
  intros Hfail Hok. induction before as [|d rest IH].
  - cbn [searchRoots app]. rewrite probe_run, bind_run. cbn [fst snd].
    by rewrite Hok.
  - cbn [searchRoots app]. rewrite probe_run, bind_run. cbn [fst snd].
    rewrite (Hfail d) by set_solver.
    rewrite IH by (intros; apply Hfail; set_solver). done.
Qed.

(** A list with a root that resolves splits at the first such root. *)
Lemma first_resolving_root (rootDirs : list string) (d resolved : string) :
  d ∈ rootDirs → rootProbe source pluginOpts d = Some resolved →
  ∃ before rootDir after resolved',
    rootDirs = before ++ rootDir :: after ∧
    (∀ d', d' ∈ before → rootProbe source pluginOpts d' = None) ∧
    rootProbe source pluginOpts rootDir = Some resolved'.
Proof.
  induction rootDirs as [|r rest IH]; intros Hin Hok; [by apply elem_of_nil in Hin|].
  destruct (rootProbe source pluginOpts r) as [f|] eqn:Er.
  - exists [], r, rest, f. split_and!; [done| |done].
    intros d' Hd'. by apply elem_of_nil in Hd'.
  - apply elem_of_cons in Hin as [->|Hin]; [congruence|].
    destruct (IH Hin Hok) as (before & rootDir & after & f & -> & Hfail & Hf).
    exists (r :: before), rootDir, after, f. split_and!; [done| |done].
    intros d' [->|Hd']%elem_of_cons; auto.
Qed.

End RootSearch.

(** ** The alias loop *)

Section AliasLoop.
Context `{Host}.
Variable table : gmap string string.

Lemma aliasLoop_found seg segs target :
  table !! Js.join "/" (seg :: segs) = Some target →
  aliasLoop table (seg :: segs)
  = ((Some target, seg :: segs), [AliasLookup (Js.join "/" (seg :: segs))]).
Proof.
  intros Hk. simp aliasLoop. unfold hasOwnProperty. rewrite bind_run.
  cbn [fst snd]. rewrite Hk. by rewrite bool_decide_eq_true_2.
Qed.

Lemma aliasLoop_next seg segs :
  table !! Js.join "/" (seg :: segs) = None →
  aliasLoop table (seg :: segs)
  = ((aliasLoop table (Js.pop (seg :: segs))).1,
     AliasLookup (Js.join "/" (seg :: segs))
       :: (aliasLoop table (Js.pop (seg :: segs))).2).
Proof.
  intros Hk. simp aliasLoop. unfold hasOwnProperty. rewrite bind_run.
  cbn [fst snd]. rewrite Hk.
  rewrite bool_decide_eq_false_2 by (by intros [? ?]). done.
Qed.

Lemma pop_take (segs : list string) : Js.pop segs = take (length segs - 1) segs.
Proof.
  unfold Js.pop. rewrite removelast_firstn_len. f_equal. lia.
Qed.

(** The loop tests the whole list, then the list without its last segment,
    and so on, and stops at the first [k] segments when they are the longest
    prefix in the table. *)
Lemma aliasLoop_hit (d : nat) : ∀ (segs : list string) (k : nat) (target : string),
  length segs = k + d → 1 ≤ k →
  table !! Js.join "/" (take k segs) = Some target →
  (∀ j, k < j ≤ length segs → table !! Js.join "/" (take j segs) = None) →
  aliasLoop table segs
  = ((Some target, take k segs),
     AliasLookup <$> ((λ j, Js.join "/" (take j segs)) <$> rev (seq k (S d)))).
Proof.
  induction d as [|d IH]; intros segs k target Hlen Hk Hhit Hlonger.
  - rewrite Nat.add_0_r in Hlen. subst k. rewrite firstn_all in Hhit.
    destruct segs as [|seg segs]; [simpl in Hk; lia|].
    rewrite (aliasLoop_found _ _ _ Hhit).
    cbn [seq rev app fmap list_fmap]. by rewrite firstn_all.
  - destruct segs as [|seg segs]; [simpl in Hlen; lia|].
    assert (table !! Js.join "/" (seg :: segs) = None) as Hmiss.
    { rewrite <-(firstn_all (seg :: segs)). apply Hlonger. lia. }
    rewrite (aliasLoop_next _ _ Hmiss).
    set (segs' := Js.pop (seg :: segs)).
    assert (segs' = take (k + d) (seg :: segs)) as Hsegs'.
    { unfold segs'. rewrite pop_take. f_equal. lia. }
    assert (length segs' = k + d) as Hlen'.
    { rewrite Hsegs', length_take. lia. }
    assert (∀ j, j ≤ k + d → take j segs' = take j (seg :: segs)) as Htake.
    { intros j Hj. rewrite Hsegs', take_take. f_equal. lia. }
    rewrite (IH segs' k target); [|done|done| |].
    + rewrite Htake by lia. cbn [fst snd]. f_equal.
      rewrite (seq_S (S d)), rev_app_distr. cbn [rev app fmap list_fmap].
      rewrite <-Hlen, firstn_all. do 2 f_equal.
      apply Forall_fmap_ext, Forall_forall. intros j Hj.
      apply list_elem_of_In, in_rev, in_seq in Hj. rewrite Htake by lia. done.
    + by rewrite Htake by lia.
    + intros j Hj. rewrite Htake by lia. apply Hlonger. lia.
Qed.

(** With no prefix in the table the loop tests every prefix and leaves
    [aliasPath] undefined. *)
Lemma aliasLoop_miss (n : nat) : ∀ (segs : list string),
  length segs = n →
  (∀ j, 1 ≤ j ≤ length segs → table !! Js.join "/" (take j segs) = None) →
  aliasLoop table segs
  = ((None, []),
     AliasLookup <$> ((λ j, Js.join "/" (take j segs)) <$> rev (seq 1 n))).
Proof.
  induction n as [|n IH]; intros segs Hlen Hnone.
  - destruct segs; [|done]. by simp aliasLoop.
  - destruct segs as [|seg segs]; [done|].
    assert (table !! Js.join "/" (seg :: segs) = None) as Hmiss.
    { rewrite <-(firstn_all (seg :: segs)). apply Hnone. simpl. lia. }
    rewrite (aliasLoop_next _ _ Hmiss).
    set (segs' := Js.pop (seg :: segs)).
    assert (segs' = take n (seg :: segs)) as Hsegs'.
    { unfold segs'. rewrite pop_take. f_equal. simpl in *. lia. }
    assert (length segs' = n) as Hlen'.
    { rewrite Hsegs', length_take. lia. }
    assert (∀ j, j ≤ n → take j segs' = take j (seg :: segs)) as Htake.
    { intros j Hj. rewrite Hsegs', take_take. f_equal. lia. }
    rewrite (IH segs'); [|done|].
    + cbn [fst snd]. f_equal.
      rewrite (seq_S n), rev_app_distr. cbn [rev app fmap list_fmap].
      replace (1 + n) with (length (seg :: segs)) by (simpl in *; lia).
      rewrite firstn_all. do 2 f_equal.
      apply Forall_fmap_ext, Forall_forall. intros j Hj.
      apply list_elem_of_In, in_rev, in_seq in Hj. rewrite Htake by lia. done.
    + intros j Hj. rewrite Htake by lia. apply Hnone. lia.
Qed.

End AliasLoop.

(** ** The configured table and the table the resolver builds *)

Lemma noSlash_app_slash (s t : string) : noSlash (s +:+ "/" +:+ t) = false.
Proof.
  induction s as [|c s IH].
  - by rewrite str_app_nil_l, str_app_cons.
  - rewrite str_app_cons. cbn [noSlash]. by rewrite IH, andb_false_r.
Qed.

(** A key without a slash can only be the first segment. *)
Lemma prefixKey_proto (source : string) (k : nat) :
  1 ≤ k ≤ length (Js.split "/" source) →
  prefixKey source k = "__proto__" → k = 1.
Proof.
  unfold prefixKey. intros Hk Hkey.
  destruct (take k (Js.split "/" source)) as [|a [|b r]] eqn:E.
  - apply (f_equal length) in E. rewrite length_take in E. simpl in E. lia.
  - apply (f_equal length) in E. rewrite length_take in E. simpl in E. lia.
  - rewrite js_join_cons in Hkey by done.
    pose proof (noSlash_app_slash a (Js.join "/" (b :: r))) as Hslash.
    by rewrite Hkey in Hslash.
Qed.

Lemma noAliasMatch_built (pluginOpts : PluginOpts) (source : string) :
  noAliasMatch (aliasTable pluginOpts) source →
  noAliasMatch (createAliasFileMap pluginOpts) source.
Proof.
  intros Hnone j Hj. rewrite createAliasFileMap_lookup.
  case_decide; [done|]. by apply Hnone.
Qed.

Lemma longestAliasMatch_built (pluginOpts : PluginOpts) (source : string)
  (k : nat) (target : string) :
  longestAliasMatch (aliasTable pluginOpts) source k target →
  prefixKey source k ≠ "__proto__" →
  longestAliasMatch (createAliasFileMap pluginOpts) source k target.
Proof.
  intros (Hk & Hhit & Hlonger) Hkey. split_and!; [lia|lia| |].
  - by rewrite createAliasFileMap_lookup, decide_False.
  - intros j Hj. rewrite createAliasFileMap_lookup.
    case_decide; [done|]. by apply Hlonger.
Qed.

(** When the longest configured key is [__proto__], it is the first segment
    and the table the resolver built has no prefix of the specifier. *)
Lemma longestAliasMatch_proto (pluginOpts : PluginOpts) (source : string)
  (k : nat) (target : string) :
  longestAliasMatch (aliasTable pluginOpts) source k target →
  prefixKey source k = "__proto__" →
  k = 1 ∧ noAliasMatch (createAliasFileMap pluginOpts) source.
Proof.
  intros (Hk & Hhit & Hlonger) Hkey.
  assert (k = 1) as -> by (by apply (prefixKey_proto source)).
  split; [done|]. intros j Hj. rewrite createAliasFileMap_lookup.
  case_decide; [done|]. destruct (decide (j = 1)) as [->|]; [done|].
  apply Hlonger. lia.
Qed.

(** ** The two phases of [mapModule] *)

Section Phases.
Context `{Host}.
Variables (source file : string) (pluginOpts : PluginOpts).
Hypothesis not_relative : Js.firstCharIs "." source = false.

Lemma mapModule_root_hit (mapped : string) (log : list event) :
  searchRoots source file pluginOpts (default [] (root pluginOpts))
  = (Some mapped, log) →
  mapModule source file pluginOpts = (Some mapped, log).
Proof.
  intros Hroots. unfold mapModule. rewrite not_relative, bind_run, Hroots.
  cbn [fst snd mret M_ret]. by rewrite (right_id_L [] (++)).
Qed.

(** The alias phase, read off the table the resolver built. *)
Lemma mapModule_built_hit (log : list event) (k : nat) (target : string) :
  searchRoots source file pluginOpts (default [] (root pluginOpts))
  = (None, log) →
  longestAliasMatch (createAliasFileMap pluginOpts) source k target →
  mapModule source file pluginOpts
  = (if decide (target = "") then None
     else
       let aliasPath := Js.stripNpm target in
       let newPath := Js.replace source (prefixKey source k) aliasPath in
       Some (if Js.firstCharIs "." aliasPath
             then Utils.toLocalPath
                    (Utils.toPosixPath (Utils.mapToRelative cwd file newPath))
             else newPath),
     log ++ (AliasLookup <$> keysDownTo source k)).
Proof.
  intros Hroots (Hk & Hhit & Hlonger).
  unfold mapModule. rewrite not_relative, bind_run, Hroots. cbn [fst snd].
  rewrite bind_run.
  rewrite (aliasLoop_hit _ (length (Js.split "/" source) - k) _ k target);
    [|lia|lia|done|done].
  cbn [fst snd]. unfold keysDownTo.
  replace (S (length (Js.split "/" source)) - k)
    with (S (length (Js.split "/" source) - k)) by lia.
  fold (prefixKey source k).
  change (λ j, Js.join "/" (take j (Js.split "/" source)))
    with (prefixKey source).
  case_decide; [|destruct (Js.firstCharIs "." (Js.stripNpm target))];
    cbn [negb fst snd mret M_ret]; by rewrite !(right_id_L [] (++)).
Qed.

Lemma mapModule_built_miss (log : list event) :
  searchRoots source file pluginOpts (default [] (root pluginOpts))
  = (None, log) →
  noAliasMatch (createAliasFileMap pluginOpts) source →
  mapModule source file pluginOpts
  = (None, log ++ (AliasLookup <$> keysDownTo source 1)).
Proof.
  intros Hroots Hnone.
  unfold mapModule. rewrite not_relative, bind_run, Hroots. cbn [fst snd].
  rewrite bind_run.
  rewrite (aliasLoop_miss _ (length (Js.split "/" source))); [|done|done].
  cbn [fst snd mret M_ret]. unfold keysDownTo.
  replace (S (length (Js.split "/" source)) - 1)
    with (length (Js.split "/" source)) by lia.
  by rewrite (right_id_L [] (++)).
Qed.

(** The alias phase, read off the configured table: a key [__proto__] in it
    is as good as absent. *)
Lemma mapModule_alias_hit (log : list event) (k : nat) (target : string) :
  searchRoots source file pluginOpts (default [] (root pluginOpts))
  = (None, log) →
  longestAliasMatch (aliasTable pluginOpts) source k target →
  mapModule source file pluginOpts
  = (if decide (target = "") then None
     else if decide (prefixKey source k = "__proto__") then None
     else
       let aliasPath := Js.stripNpm target in
       let newPath := Js.replace source (prefixKey source k) aliasPath in
       Some (if Js.firstCharIs "." aliasPath
             then Utils.toLocalPath
                    (Utils.toPosixPath (Utils.mapToRelative cwd file newPath))
             else newPath),
     log ++ (AliasLookup <$> keysDownTo source k)).
Proof.
  intros Hroots Hmatch.
  destruct (decide (prefixKey source k = "__proto__")) as [Hproto|Hkey].
  - destruct (longestAliasMatch_proto _ _ _ _ Hmatch Hproto) as [-> Hnone].
    rewrite (mapModule_built_miss log) by done. by case_decide.
  - apply mapModule_built_hit; [done|]. by apply longestAliasMatch_built.
Qed.

Lemma mapModule_alias_miss (log : list event) :
  searchRoots source file pluginOpts (default [] (root pluginOpts))
  = (None, log) →
  noAliasMatch (aliasTable pluginOpts) source →
  mapModule source file pluginOpts
  = (None, log ++ (AliasLookup <$> keysDownTo source 1)).
Proof.
  intros Hroots Hnone. apply mapModule_built_miss; [done|].
  by apply noAliasMatch_built.
Qed.

End Phases.

(** ** The shape of the log *)

Section LogShape.
Context `{Host}.
Variables (source file : string) (pluginOpts : PluginOpts).

(** The root loop either returns at some root or runs through all of them;
    what it logs is a probe of each root it reached. *)
Lemma searchRoots_run (rootDirs : list string) :
  (∃ before rootDir after resolved,
     rootDirs = before ++ rootDir :: after ∧
     (∀ d, d ∈ before → rootProbe source pluginOpts d = None) ∧
     rootProbe source pluginOpts rootDir = Some resolved ∧
     searchRoots source file pluginOpts rootDirs
     = (Some (mapResolved source file resolved),
        rootProbeEvent source pluginOpts <$> (before ++ [rootDir])))
  ∨ ((∀ d, d ∈ rootDirs → rootProbe source pluginOpts d = None) ∧
     searchRoots source file pluginOpts rootDirs
     = (None, rootProbeEvent source pluginOpts <$> rootDirs)).
Proof.
  destruct (decide (Exists (λ d, is_Some (rootProbe source pluginOpts d)) rootDirs))
    as [Hex|Hnone].
  - left. apply Exists_exists in Hex as (d & Hd & [resolved Hr]).
    destruct (first_resolving_root _ _ _ _ _ Hd Hr)
      as (before & rootDir & after & resolved' & -> & Hfail & Hok).
    exists before, rootDir, after, resolved'. split_and!; [done..|].
    by apply searchRoots_first.
  - right.
    assert (∀ d, d ∈ rootDirs → rootProbe source pluginOpts d = None) as Hfail.
    { intros d Hd. destruct (rootProbe source pluginOpts d) eqn:E; [|done].
      exfalso. apply Hnone, Exists_exists. exists d. by rewrite E. }
    split; [done|]. by apply searchRoots_none.
Qed.

(** Every test of the alias loop is logged as a lookup and nothing else. *)
Lemma aliasLoop_log (table : gmap string string) (segs : list string) :
  ∃ keys, (aliasLoop table segs).2 = AliasLookup <$> keys.
Proof.
  remember (length segs) as n eqn:Hn. revert segs Hn.
  induction n as [|n IH]; intros segs Hn.
  - destruct segs; [|done]. exists []. by simp aliasLoop.
  - destruct segs as [|seg segs]; [done|].
    destruct (table !! Js.join "/" (seg :: segs)) as [target|] eqn:E.
    + rewrite (aliasLoop_found _ _ _ _ E). by eexists [_].
    + rewrite (aliasLoop_next _ _ _ E). cbn [snd].
      destruct (IH (Js.pop (seg :: segs))) as [keys ->].
      { rewrite pop_take, length_take. simpl in *. lia. }
      by exists (Js.join "/" (seg :: segs) :: keys).
Qed.

Lemma mapModule_log :
  ∃ probed keys,
    consulted (mapModule source file pluginOpts)
    = (rootProbeEvent source pluginOpts <$> probed) ++ (AliasLookup <$> keys).
Proof.
  unfold consulted, mapModule.
  destruct (Js.firstCharIs "." source); [by exists [], []|].
  rewrite bind_run. cbn [snd].
  destruct (searchRoots_run (default [] (root pluginOpts)))
    as [(before & rootDir & after & resolved & _ & _ & _ & ->)|[_ ->]];
    cbn [fst snd mret M_ret].
  - exists (before ++ [rootDir]), []. done.
  - eexists _. rewrite bind_run. cbn [snd].
    destruct (aliasLoop_log (createAliasFileMap pluginOpts) (Js.split "/" source))
      as [keys Hkeys].
    exists keys. rewrite Hkeys. f_equal.
    destruct (aliasLoop _ _) as [[[aliasPath|] segs] log]; cbn [fst snd];
      [case_decide; [|destruct (negb _)]|];
      cbn [snd mret M_ret]; by rewrite (right_id_L [] (++)).
Qed.

End LogShape.

(** The run of [mapModule] when some root resolves the specifier. *)
Lemma mapModule_first_root `{Host} (source file : string)
  (pluginOpts : PluginOpts) (before after : list string)
  (rootDir resolved : string) :
  Js.firstCharIs "." source = false →
  root pluginOpts = Some (before ++ rootDir :: after) →
  (∀ d, d ∈ before → rootProbe source pluginOpts d = None) →
  rootProbe source pluginOpts rootDir = Some resolved →
  mapModule source file pluginOpts
  = (Some (mapResolved source file resolved),
     rootProbeEvent source pluginOpts <$> (before ++ [rootDir])).
Proof.
  intros Hdot Hroot Hfail Hok.
  apply (mapModule_root_hit source file pluginOpts Hdot).
  rewrite Hroot. by apply searchRoots_first.
Qed.

(** ** Side conditions on a concrete filesystem and alias table *)

(** No root of a concrete list resolves the specifier. *)
Ltac no_root_resolves :=
  let d := fresh "d" in
  let Hd := fresh "Hd" in
  intros d Hd; apply list_elem_of_In in Hd; simpl in Hd;
  repeat (destruct Hd as [<-|Hd]; [reflexivity|]); destruct Hd.

(** Every prefix in the given range is looked up, by cases on its length. *)
Ltac no_key_in_range :=
  let j := fresh "j" in
  let Hj := fresh "Hj" in
  intros j Hj; vm_compute in Hj;
  do 8 (destruct j as [|j]; [first [lia|reflexivity]|]); lia.

Ltac longest_match :=
  split; [vm_compute; lia|]; split; [reflexivity|no_key_in_range].

(** ** The guard and the root phase *)

(** C4. Relative-specifier passthrough: for a specifier whose first character
    is a dot, whatever the importing file and the configuration, [mapModule]
    returns null, and it consulted neither a root directory nor the alias
    table: its log is empty. *)
Theorem relative_specifier_passthrough `{Host}
  (source file : string) (pluginOpts : PluginOpts) :
  Js.firstCharIs "." source = true →
  returned (mapModule source file pluginOpts) = None ∧
  consulted (mapModule source file pluginOpts) = [].
Proof. intros Hdot. unfold mapModule. by rewrite Hdot. Qed.

Lemma relative_specifier_passthrough_witness :
  Js.firstCharIs "." "./l/otherLib" = true ∧
  returned (mapModule (H := exampleHost) "./l/otherLib" "unknown"
              (config exampleRoots exampleAliases)) = None ∧
  consulted (mapModule (H := exampleHost) "./l/otherLib" "unknown"
               (config exampleRoots exampleAliases)) = [].
Proof.
  split; [reflexivity|].
  apply (relative_specifier_passthrough (H := exampleHost)). reflexivity.
Defined.

(** C1 (amended). Root precedence: for a specifier that does not start with a
    dot, when the probe fails under the roots [before], succeeds under
    [rootDir] and the configuration lists still more roots [after] (which may
    resolve the specifier as well), [mapModule] returns the rewrite computed
    from [rootDir], and it probed [before] and [rootDir] in that order and
    none of [after]. *)
Theorem root_precedence `{Host} (source file : string) (pluginOpts : PluginOpts)
  (before after : list string) (rootDir resolved : string) :
  Js.firstCharIs "." source = false →
  root pluginOpts = Some (before ++ rootDir :: after) →
  (∀ d, d ∈ before → rootProbe source pluginOpts d = None) →
  rootProbe source pluginOpts rootDir = Some resolved →
  returned (mapModule source file pluginOpts)
  = Some (mapResolved source file resolved) ∧
  consulted (mapModule source file pluginOpts)
  = rootProbeEvent source pluginOpts <$> (before ++ [rootDir]).
Proof.
  intros Hdot Hroot Hfail Hok.
  by rewrite (mapModule_first_root source file pluginOpts before after rootDir
                resolved Hdot Hroot Hfail Hok).
Qed.

Lemma root_precedence_witness :
  rootProbe (H := exampleHost) "c1" (config ("./lib" :: exampleRoots) [])
    "./test/examples/foo" = Some "/proj/test/examples/foo/c1.js" ∧
  returned (mapModule (H := exampleHost) "c1" "unknown"
              (config ("./lib" :: exampleRoots) []))
  = Some "./test/examples/components/c1" ∧
  consulted (mapModule (H := exampleHost) "c1" "unknown"
               (config ("./lib" :: exampleRoots) []))
  = [ Probe "./c1" "/proj/lib" [".js"; ".jsx"; ".es"; ".es6"];
      Probe "./c1" "/proj/test/examples/components"
        [".js"; ".jsx"; ".es"; ".es6"] ].
Proof.
  split; [reflexivity|].
  apply (root_precedence (H := exampleHost) "c1" "unknown"
           (config ("./lib" :: exampleRoots) [])
           ["./lib"] ["./test/examples/foo"] "./test/examples/components"
           "/proj/test/examples/components/c1.js").
  - reflexivity.
  - reflexivity.
  - no_root_resolves.
  - reflexivity.
Defined.

(** C1 as stated fails for a specifier that starts with a dot: both roots
    hold [.hidden.js], so the probe resolves [.hidden] under each of them,
    and yet [mapModule] returns null, not the rewrite of the first root. *)
Lemma root_precedence_not_for_dot_specifiers :
  rootProbe (H := dotfileHost) ".hidden" (config exampleRoots [])
    "./test/examples/components"
  = Some "/proj/test/examples/components/.hidden.js" ∧
  rootProbe (H := dotfileHost) ".hidden" (config exampleRoots [])
    "./test/examples/foo"
  = Some "/proj/test/examples/foo/.hidden.js" ∧
  mapResolved (H := dotfileHost) ".hidden" "unknown"
    "/proj/test/examples/components/.hidden.js"
  = "./test/examples/components/.hidden" ∧
  returned (mapModule (H := dotfileHost) ".hidden" "unknown"
              (config exampleRoots []))
  = None.
Proof. split_and!; reflexivity. Qed.

(** C5 (amended). A root match suppresses the alias rules: for a specifier
    that does not start with a dot and that the probe resolves under some
    configured root, the result is the rewrite computed from a root that
    resolves it, no key was looked up in the alias table, and a
    configuration that differs in its alias table only gives the very same
    run. *)
Theorem root_match_suppresses_alias `{Host} (source file : string)
  (pluginOpts pluginOpts' : PluginOpts) (d resolved : string) :
  Js.firstCharIs "." source = false →
  d ∈ default [] (root pluginOpts) →
  rootProbe source pluginOpts d = Some resolved →
  root pluginOpts' = root pluginOpts →
  extensions pluginOpts' = extensions pluginOpts →
  (∃ rootDir resolved',
     rootDir ∈ default [] (root pluginOpts) ∧
     rootProbe source pluginOpts rootDir = Some resolved' ∧
     returned (mapModule source file pluginOpts)
     = Some (mapResolved source file resolved')) ∧
  (∀ key, AliasLookup key ∉ consulted (mapModule source file pluginOpts)) ∧
  mapModule source file pluginOpts' = mapModule source file pluginOpts.
Proof.
  intros Hdot Hd Hok Hroot Hexts.
  destruct (first_resolving_root source pluginOpts _ _ _ Hd Hok)
    as (before & rootDir & after & resolved' & Hsplit & Hfail & Hok').
  pose proof (searchRoots_first source file pluginOpts before after rootDir
                resolved' Hfail Hok') as Hrun.
  rewrite <-Hsplit in Hrun.
  rewrite (mapModule_root_hit source file pluginOpts Hdot _ _ Hrun).
  split_and!.
  - exists rootDir, resolved'. split_and!; [|done..].
    rewrite Hsplit. set_solver.
  - intros key Hin. cbn [consulted snd] in Hin.
    apply list_elem_of_fmap in Hin as (d' & Hd' & _). done.
  - apply (mapModule_root_hit source file pluginOpts' Hdot).
    rewrite Hroot, <-Hrun. clear -Hexts.
    assert (∀ rootDirs,
              searchRoots source file pluginOpts' rootDirs
              = searchRoots source file pluginOpts rootDirs) as Heq.
    { induction rootDirs as [|r rest IH]; [done|].
      cbn [searchRoots]. by rewrite Hexts, IH. }
    apply Heq.
Qed.

Lemma root_match_suppresses_alias_witness :
  returned (mapModule (H := exampleHost) "c1" "unknown"
              (config exampleRoots [("c1", "./elsewhere/c1")]))
  = Some "./test/examples/components/c1" ∧
  mapModule (H := exampleHost) "c1" "unknown" (config exampleRoots [])
  = mapModule (H := exampleHost) "c1" "unknown"
      (config exampleRoots [("c1", "./elsewhere/c1")]).
Proof.
  destruct (root_match_suppresses_alias (H := exampleHost) "c1" "unknown"
              (config exampleRoots [("c1", "./elsewhere/c1")])
              (config exampleRoots [])
              "./test/examples/foo" "/proj/test/examples/foo/c1.js")
    as (_ & _ & Hsame).
  - reflexivity.
  - apply list_elem_of_In. simpl. tauto.
  - reflexivity.
  - reflexivity.
  - reflexivity.
  - split; [reflexivity|exact Hsame].
Defined.

(** C5 as stated fails for a specifier that starts with a dot: the probe
    resolves [.storybook/main] under the root (and the alias table has a key
    for its first segment), and yet the result is null, not the rewrite of
    the root phase. *)
Lemma root_match_not_for_dot_specifiers :
  rootProbe (H := dotdirHost) ".storybook/main"
    (config ["./test/examples/components"] [(".storybook", "./sb")])
    "./test/examples/components"
  = Some "/proj/test/examples/components/.storybook/main.js" ∧
  returned (mapModule (H := dotdirHost) ".storybook/main" "unknown"
              (config ["./test/examples/components"] [(".storybook", "./sb")]))
  = None.
Proof. split; reflexivity. Qed.

(** ** Paths made of plain names *)

Lemma js_split_noSlash (s : string) : noSlash s = true → Js.split "/" s = [s].
Proof.
  induction s as [|c s IH]; [done|]. cbn [noSlash Js.split].
  intros [Hc Hs]%andb_true_iff. apply negb_true_iff, bool_decide_eq_false in Hc.
  rewrite decide_False by done. by rewrite IH.
Qed.

Lemma js_split_app_slash (s t : string) :
  noSlash s = true → Js.split "/" (s +:+ "/" +:+ t) = s :: Js.split "/" t.
Proof.
  induction s as [|c s IH].
  - intros _. rewrite str_app_nil_l. change ("/" +:+ t) with (String "/" t).
    cbn [Js.split]. by rewrite decide_True.
  - cbn [noSlash]. intros [Hc Hs]%andb_true_iff.
    apply negb_true_iff, bool_decide_eq_false in Hc.
    rewrite str_app_cons. cbn [Js.split]. rewrite decide_False by done.
    by rewrite IH.
Qed.

Lemma js_split_join (segs : list string) :
  segs ≠ [] → forallb noSlash segs = true →
  Js.split "/" (Js.join "/" segs) = segs.
Proof.
  induction segs as [|seg segs IH]; [done|]. intros _.
  cbn [forallb]. intros [Hseg Hsegs]%andb_true_iff.
  destruct segs as [|seg' segs]; [by apply js_split_noSlash|].
  rewrite js_join_cons by done. rewrite js_split_app_slash by done.
  by rewrite IH.
Qed.

Lemma js_join_snoc (segs : list string) (name : string) :
  Js.join "/" (segs ++ [name])
  = (if decide (segs = []) then "" else Js.join "/" segs +:+ "/") +:+ name.
Proof.
  destruct segs as [|seg segs]; [done|].
  rewrite decide_False by done. rewrite js_join_app by done.
  by rewrite str_app_assoc.
Qed.

Lemma lastNonEmpty_snoc (segs : list string) (name : string) :
  name ≠ "" → Path.lastNonEmpty (segs ++ [name]) = name.
Proof.
  intros Hne. induction segs as [|seg segs IH]; cbn [app Path.lastNonEmpty].
  - by rewrite decide_True.
  - rewrite IH. by rewrite decide_False.
Qed.

Lemma dropTrailingEmpty_snoc (segs : list string) (name : string) :
  name ≠ "" → Path.dropTrailingEmpty (segs ++ [name]) = segs ++ [name].
Proof.
  intros Hne. induction segs as [|seg segs IH]; cbn [app Path.dropTrailingEmpty].
  - by rewrite decide_False.
  - rewrite IH. destruct (segs ++ [name]) eqn:E; [by destruct segs|done].
Qed.

Lemma isPlainName_spec (s : string) :
  isPlainName s = true →
  noSlash s = true ∧ s ≠ "" ∧ s ≠ "." ∧ s ≠ "..".
Proof.
  unfold isPlainName. rewrite !andb_true_iff, !negb_true_iff.
  rewrite !bool_decide_eq_false. tauto.
Qed.

Lemma isRelativeDirs_noSlash (dirs : list string) :
  isRelativeDirs dirs = true → forallb noSlash dirs = true.
Proof.
  induction dirs as [|d dirs IH]; [done|]. cbn [isRelativeDirs].
  case_decide as Hd.
  - intros Hrest. subst d. cbn [forallb]. by rewrite IH.
  - intros Hall. apply forallb_forall. intros x Hx.
    eapply forallb_forall in Hall; [|exact Hx].
    by apply isPlainName_spec in Hall as [? _].
Qed.

Lemma isRelativeDirs_nonempty (dirs : list string) :
  isRelativeDirs dirs = true → Forall (λ d, d ≠ "") dirs.
Proof.
  induction dirs as [|d dirs IH]; [done|]. cbn [isRelativeDirs].
  case_decide as Hd.
  - intros Hrest. subst d. constructor; [done|by apply IH].
  - intros Hall. apply Forall_forall. intros x Hx%list_elem_of_In.
    eapply forallb_forall in Hall; [|exact Hx].
    by apply isPlainName_spec in Hall as (_ & ? & _).
Qed.

Lemma normalizeSegments_names (allowAboveRoot : bool) (segs res : list string) :
  forallb isPlainName segs = true →
  Path.normalizeSegments allowAboveRoot res segs = rev res ++ segs.
Proof.
  revert res. induction segs as [|seg segs IH]; intros res.
  - intros _. by rewrite (right_id_L [] (++)).
  - cbn [forallb]. intros [Hseg Hsegs]%andb_true_iff.
    apply isPlainName_spec in Hseg as (_ & Hne & Hdot & Hdots).
    cbn [Path.normalizeSegments].
    rewrite decide_False by (intros [?|?]; done).
    rewrite decide_False by done. rewrite IH by done.
    cbn [rev]. by rewrite <-app_assoc.
Qed.

Lemma rev_replicate {A} (n : nat) (x : A) : rev (replicate n x) = replicate n x.
Proof.
  induction n as [|n IH]; [done|]. cbn [replicate rev]. rewrite IH.
  clear IH. induction n as [|n IH]; [done|]. cbn [replicate app]. by rewrite IH.
Qed.

Lemma normalizeSegments_relative (dirs : list string) (n : nat) :
  isRelativeDirs dirs = true →
  Path.normalizeSegments true (replicate n "..") dirs = replicate n ".." ++ dirs.
Proof.
  revert n. induction dirs as [|d dirs IH]; intros n.
  - intros _. cbn [Path.normalizeSegments].
    by rewrite rev_replicate, (right_id_L [] (++)).
  - cbn [isRelativeDirs]. case_decide as Hd.
    + intros Hrest. subst d. cbn [Path.normalizeSegments].
      rewrite decide_False by (intros [?|?]; done). rewrite decide_True by done.
      assert (Path.normalizeSegments true (replicate (S n) "..") dirs
              = replicate (S n) ".." ++ dirs) as Hnext by by apply IH.
      replace (replicate n ".." ++ ".." :: dirs)
        with (replicate (S n) ".." ++ dirs).
      * destruct n as [|n]; [done|]. cbn [replicate].
        by rewrite decide_True.
      * clear. induction n as [|n IH]; [done|]. cbn [replicate app] in *.
        by rewrite IH.
    + intros Hall. rewrite normalizeSegments_names by done.
      by rewrite rev_replicate.
Qed.

Lemma isRelativeDirs_snoc (dirs : list string) (name : string) :
  isRelativeDirs dirs = true → isPlainName name = true →
  isRelativeDirs (dirs ++ [name]) = true.
Proof.
  intros Hdirs Hname.
  induction dirs as [|d dirs IH]; cbn [app isRelativeDirs] in *.
  - apply isPlainName_spec in Hname as Hspec. rewrite decide_False by tauto.
    cbn [forallb]. by rewrite Hname.
  - case_decide; [by apply IH|].
    change (forallb isPlainName ((d :: dirs) ++ [name]) = true).
    rewrite forallb_app, Hdirs. cbn [forallb]. by rewrite Hname.
Qed.

(** ** Extensions and stems of plain names *)

Lemma fromLastDot_suffix (s e : string) :
  Path.fromLastDot s = Some e → ∃ stem, s = stem +:+ e ∧ e ≠ "".
Proof.
  revert e. induction s as [|c s IH]; intros e; [done|].
  cbn [Path.fromLastDot]. destruct (Path.fromLastDot s) as [e'|].
  - intros [= <-]. destruct (IH e' eq_refl) as (stem & -> & Hne).
    by exists (String c stem).
  - case_decide; [|done]. intros [= <-]. by exists "".
Qed.

Lemma str_substring_app (s t : string) :
  String.substring 0 (String.length s) (s +:+ t) = s.
Proof.
  induction s as [|c s IH]; [by destruct t|].
  rewrite str_app_cons. cbn. by rewrite IH.
Qed.

Lemma stripSuffix_app (s e : string) : Path.stripSuffix e (s +:+ e) = Some s.
Proof.
  unfold Path.stripSuffix. rewrite str_app_length.
  replace (String.length s + String.length e - String.length e)
    with (String.length s) by lia.
  rewrite decide_True.
  - by rewrite str_substring_app.
  - split; [lia|apply str_drop_app].
Qed.

Lemma lastComponent_name (name : string) :
  isPlainName name = true → Path.lastComponent name = name.
Proof.
  intros (Hslash & Hne & _)%isPlainName_spec.
  unfold Path.lastComponent, Path.segments. rewrite js_split_noSlash by done.
  by apply (lastNonEmpty_snoc []).
Qed.

Lemma segments_join (dirs : list string) (name : string) :
  forallb noSlash dirs = true → noSlash name = true →
  Path.segments (Js.join "/" (dirs ++ [name])) = dirs ++ [name].
Proof.
  intros Hdirs Hname. apply js_split_join; [by destruct dirs|].
  rewrite forallb_app, Hdirs. cbn [forallb]. by rewrite Hname.
Qed.

Lemma lastComponent_join (dirs : list string) (name : string) :
  forallb noSlash dirs = true → isPlainName name = true →
  Path.lastComponent (Js.join "/" (dirs ++ [name])) = name.
Proof.
  intros Hdirs (Hslash & Hne & _)%isPlainName_spec.
  unfold Path.lastComponent. rewrite segments_join by done.
  by apply lastNonEmpty_snoc.
Qed.

Lemma extname_join (dirs : list string) (name : string) :
  forallb noSlash dirs = true → isPlainName name = true →
  Path.extname (Js.join "/" (dirs ++ [name])) = Path.extname name.
Proof.
  intros Hdirs Hname. unfold Path.extname.
  by rewrite lastComponent_join, lastComponent_name.
Qed.

(** A name is what is before its extension followed by its extension, and
    an extension does not begin the name. *)
Lemma extname_split (name : string) :
  isPlainName name = true →
  ∃ stem, name = stem +:+ Path.extname name ∧
          (Path.extname name ≠ "" → stem ≠ "").
Proof.
  intros Hname. unfold Path.extname. rewrite lastComponent_name by done.
  destruct name as [|c rest]; [by exists ""|].
  case_decide; [exists (String c rest); by rewrite str_app_nil_r|].
  destruct (Path.fromLastDot rest) as [e|] eqn:E; cbn [default].
  - apply fromLastDot_suffix in E as (stem & -> & _).
    by exists (String c stem).
  - exists (String c rest). by rewrite str_app_nil_r.
Qed.

Lemma basename_join (dirs : list string) (name stem : string) :
  forallb noSlash dirs = true → isPlainName name = true →
  name = stem +:+ Path.extname name →
  (Path.extname name ≠ "" → stem ≠ "") →
  Path.basename (Js.join "/" (dirs ++ [name])) (Path.extname name) = stem.
Proof.
  intros Hdirs Hname Hsplit Hstem. unfold Path.basename.
  rewrite lastComponent_join by done.
  remember (Path.extname name) as e eqn:He. clear He Hname.
  case_decide as Hext.
  - by rewrite Hsplit, Hext, str_app_nil_r.
  - rewrite decide_False.
    + rewrite Hsplit, stripSuffix_app. by rewrite decide_False by auto.
    + intros Heq. apply (f_equal String.length) in Heq.
      rewrite js_join_snoc, Hsplit, !str_app_length in Heq.
      specialize (Hstem Hext). destruct stem; [done|]. simpl in Heq. lia.
Qed.

Lemma fileStem_spec (name : string) :
  isPlainName name = true →
  name = fileStem name +:+ Path.extname name ∧
  (Path.extname name ≠ "" → fileStem name ≠ "").
Proof.
  intros Hname. destruct (extname_split name Hname) as (stem & Hsplit & Hstem).
  assert (fileStem name = stem) as ->; [|done].
  unfold fileStem.
  by apply (basename_join [] name stem).
Qed.

(** ** [replaceExt] on a normalized relative path *)

Lemma firstCharIs_slash_name (s t : string) :
  noSlash s = true → s ≠ "" → Js.firstCharIs "/" (s +:+ t) = false.
Proof.
  destruct s as [|c s]; [done|]. cbn [noSlash]. rewrite str_app_cons.
  intros [Hc _]%andb_true_iff _. apply negb_true_iff, bool_decide_eq_false in Hc.
  cbn [Js.firstCharIs]. by rewrite decide_False.
Qed.

Lemma join_relative (dirs : list string) (name : string) :
  isRelativeDirs dirs = true → isPlainName name = true →
  ∃ first rest,
    Js.join "/" (dirs ++ [name]) = first +:+ rest ∧
    noSlash first = true ∧ first ≠ "".
Proof.
  intros Hdirs (Hslash & Hne & _)%isPlainName_spec.
  destruct dirs as [|d dirs].
  - exists name, "". by rewrite str_app_nil_r.
  - exists d, ("/" +:+ Js.join "/" (dirs ++ [name])).
    split_and!.
    + rewrite <-app_comm_cons. apply js_join_cons. by destruct dirs.
    + apply isRelativeDirs_noSlash in Hdirs. cbn [forallb] in Hdirs.
      by apply andb_true_iff in Hdirs as [? _].
    + by apply isRelativeDirs_nonempty, Forall_cons in Hdirs as [? _].
Qed.

Lemma normalize_join (dirs : list string) (name : string) :
  isRelativeDirs dirs = true → isPlainName name = true →
  Path.normalize (Js.join "/" (dirs ++ [name])) = Js.join "/" (dirs ++ [name]).
Proof.
  intros Hdirs Hname.
  destruct (join_relative dirs name Hdirs Hname) as (first & rest & Hjoin & Hslash & Hne).
  apply isPlainName_spec in Hname as Hspec. destruct Hspec as (Hnslash & Hnne & _).
  assert (Js.join "/" (dirs ++ [name]) ≠ "") as Hnonempty.
  { rewrite Hjoin. by destruct first. }
  assert (Path.isAbsolute (Js.join "/" (dirs ++ [name])) = false) as Hrel.
  { rewrite Hjoin. by apply firstCharIs_slash_name. }
  assert (Path.endsWithSlash (Js.join "/" (dirs ++ [name])) = false) as Hend.
  { unfold Path.endsWithSlash.
    rewrite segments_join by (by try apply isRelativeDirs_noSlash).
    rewrite rev_app_distr. cbn [rev app].
    destruct (rev dirs); [done|]. by rewrite decide_False. }
  unfold Path.normalize. rewrite decide_False by done.
  rewrite Hrel, Hend. cbn [negb].
  rewrite segments_join by (by try apply isRelativeDirs_noSlash).
  rewrite (normalizeSegments_relative _ 0) by (by apply isRelativeDirs_snoc).
  cbn [replicate app]. rewrite decide_False by done.
  by rewrite str_app_nil_l, str_app_nil_r.
Qed.

Lemma normalize_here (name : string) :
  isPlainName name = true → Path.normalize ("." +:+ "/" +:+ name) = name.
Proof.
  intros Hname. apply isPlainName_spec in Hname as Hspec.
  destruct Hspec as (Hslash & Hne & Hdot & Hdots).
  assert (Path.segments ("." +:+ "/" +:+ name) = ["."; name]) as Hsegs.
  { unfold Path.segments. rewrite js_split_app_slash by done.
    by rewrite js_split_noSlash. }
  assert (Path.isAbsolute ("." +:+ "/" +:+ name) = false) as Hrel by done.
  assert (Path.endsWithSlash ("." +:+ "/" +:+ name) = false) as Hend.
  { unfold Path.endsWithSlash. rewrite Hsegs. cbn [rev app].
    by rewrite decide_False. }
  assert (Path.normalizeSegments true [] ["."; name] = [name]) as Hnorm.
  { change (Path.normalizeSegments true [] ["."; name])
      with (Path.normalizeSegments true [] [name]).
    apply (normalizeSegments_names true [name] []).
    cbn [forallb]. by rewrite Hname. }
  unfold Path.normalize. rewrite decide_False by done.
  rewrite Hrel, Hend, Hsegs. cbn [negb]. rewrite Hnorm.
  cbn [Js.join String.concat]. rewrite decide_False by done.
  by rewrite str_app_nil_l, str_app_nil_r.
Qed.

Lemma dirname_join (dirs : list string) (name : string) :
  isRelativeDirs dirs = true → isPlainName name = true →
  Path.dirname (Js.join "/" (dirs ++ [name]))
  = if decide (dirs = []) then "." else Js.join "/" dirs.
Proof.
  intros Hdirs Hname. apply isPlainName_spec in Hname as Hspec.
  destruct Hspec as (Hslash & Hne & _).
  unfold Path.dirname.
  rewrite segments_join by (by try apply isRelativeDirs_noSlash).
  rewrite dropTrailingEmpty_snoc by done. rewrite removelast_last.
  destruct dirs as [|d dirs].
  - rewrite decide_True by done. rewrite decide_True by done.
    unfold Path.isAbsolute. cbn [app Js.join String.concat].
    rewrite <-(str_app_nil_r name). by rewrite firstCharIs_slash_name.
  - pose proof (isRelativeDirs_nonempty _ Hdirs) as [Hd Hrest]%Forall_cons.
    rewrite (decide_False (P := d :: dirs = [])) by done.
    assert (Js.join "/" (d :: dirs) ≠ "") as Hjoin.
    { destruct dirs; [done|]. rewrite js_join_cons by done. by destruct d. }
    rewrite decide_False by done.
    rewrite decide_False; [done|]. by intros [= -> _].
Qed.

(** On a normalized relative path [replaceExt] swaps the extension of the
    last name for [ext] and leaves the rest alone. *)
Lemma replaceExt_join (dirs : list string) (name ext : string) :
  isRelativeDirs dirs = true → isPlainName name = true →
  isPlainName (fileStem name +:+ ext) = true →
  replaceExt (Js.join "/" (dirs ++ [name])) ext
  = Js.join "/" (dirs ++ [fileStem name +:+ ext]).
Proof.
  intros Hdirs Hname Hnew.
  destruct (fileStem_spec name Hname) as [Hsplit Hstem].
  unfold replaceExt.
  rewrite extname_join by (by try apply isRelativeDirs_noSlash).
  rewrite (basename_join dirs name (fileStem name))
    by (by try apply isRelativeDirs_noSlash).
  rewrite dirname_join by done.
  apply isPlainName_spec in Hnew as Hspec. destruct Hspec as (_ & Hne & _).
  unfold Path.join. destruct dirs as [|d dirs].
  - rewrite (decide_True (P := @nil string = [])) by done.
    rewrite (decide_False (P := "." = "")) by done.
    rewrite decide_False by done. by apply normalize_here.
  - rewrite (decide_False (P := d :: dirs = [])) by done.
    assert (Js.join "/" (d :: dirs) ≠ "") as Hjoin.
    { pose proof (isRelativeDirs_nonempty _ Hdirs) as [Hd _]%Forall_cons.
      destruct dirs; [done|]. rewrite js_join_cons by done. by destruct d. }
    rewrite decide_False by done. rewrite decide_False by done.
    assert (Js.join "/" (d :: dirs) +:+ "/" +:+ (fileStem name +:+ ext)
            = Js.join "/" ((d :: dirs) ++ [fileStem name +:+ ext])) as ->
      by by rewrite (js_join_app "/" (d :: dirs) [_]).
    by apply normalize_join.
Qed.


(** ** The extension policy *)




(** ** Runs through both phases *)

(** C7. Unmatched specifier passthrough: for a specifier that does not start
    with a dot, when the probe fails under every configured root and no
    prefix of the specifier is a key of the alias table, [mapModule] returns
    null.  It is a total function, so there is no error to raise: a failed
    probe is an ordinary answer, after which the next root is probed, as the
    log shows: every root in order, then every prefix of the specifier. *)
Theorem unmatched_specifier_passthrough `{Host}
  (source file : string) (pluginOpts : PluginOpts) :
  Js.firstCharIs "." source = false →
  (∀ d, d ∈ default [] (root pluginOpts) → rootProbe source pluginOpts d = None) →
  noAliasMatch (aliasTable pluginOpts) source →
  returned (mapModule source file pluginOpts) = None ∧
  consulted (mapModule source file pluginOpts)
  = (rootProbeEvent source pluginOpts <$> default [] (root pluginOpts))
    ++ (AliasLookup <$> keysDownTo source 1).
Proof.
  intros Hdot Hfail Hnone.
  rewrite (mapModule_alias_miss source file pluginOpts Hdot
             (rootProbeEvent source pluginOpts <$> default [] (root pluginOpts)));
    [done|by apply searchRoots_none|done].
Qed.

Lemma unmatched_specifier_passthrough_witness :
  returned (mapModule (H := exampleHost) "other-lib/util" "unknown"
              (config exampleRoots exampleAliases)) = None ∧
  consulted (mapModule (H := exampleHost) "other-lib/util" "unknown"
               (config exampleRoots exampleAliases))
  = [ Probe "./other-lib/util" "/proj/test/examples/components"
        [".js"; ".jsx"; ".es"; ".es6"];
      Probe "./other-lib/util" "/proj/test/examples/foo"
        [".js"; ".jsx"; ".es"; ".es6"];
      AliasLookup "other-lib/util";
      AliasLookup "other-lib" ].
Proof.
  apply (unmatched_specifier_passthrough (H := exampleHost) "other-lib/util"
           "unknown" (config exampleRoots exampleAliases)).
  - reflexivity.
  - no_root_resolves.
  - no_key_in_range.
Defined.

(** C9. Default extension list: every probe of a run carries the same
    extension list; it is [.js, .jsx, .es, .es6] when the [extensions] option
    is left out, and the configured list, in its order, when it is given.
    And the probes are really made with it: for a specifier that does not
    start with a dot the run begins by probing the first configured root
    with that list. *)
Theorem default_extension_list `{Host}
  (source file : string) (pluginOpts : PluginOpts) :
  (∀ request basedir exts,
     Probe request basedir exts ∈ consulted (mapModule source file pluginOpts) →
     exts = match extensions pluginOpts with
            | None => [".js"; ".jsx"; ".es"; ".es6"]
            | Some given => given
            end) ∧
  (Js.firstCharIs "." source = false →
   ∀ rootDir rest, root pluginOpts = Some (rootDir :: rest) →
     head (consulted (mapModule source file pluginOpts))
     = Some (Probe ("./" +:+ source) (Path.resolve cwd rootDir)
               match extensions pluginOpts with
               | None => [".js"; ".jsx"; ".es"; ".es6"]
               | Some given => given
               end)).
Proof.
  split.
  - intros request basedir exts Hin.
    destruct (mapModule_log source file pluginOpts) as (probed & keys & Hlog).
    rewrite Hlog in Hin. apply elem_of_app in Hin as [Hin|Hin].
    + apply list_elem_of_fmap in Hin as (d & Hd & _).
      unfold rootProbeEvent, probeExtensions in Hd.
      injection Hd as _ _ ->. by destruct (extensions pluginOpts).
    + by apply list_elem_of_fmap in Hin as (k & Hk & _).
  - intros Hdot rootDir rest Hroot.
    unfold consulted, mapModule. rewrite Hdot, bind_run, Hroot.
    change (default [] (Some (rootDir :: rest))) with (rootDir :: rest).
    cbn [snd searchRoots]. rewrite probe_run, bind_run.
    cbn [fst snd app head]. unfold rootProbeEvent, probeExtensions.
    by destruct (extensions pluginOpts).
Qed.

(** A configured list is used as it is, in its order: with [.css] before
    [.js] the stylesheet is found first. *)
Example given_extension_list :
  mapModule (H := exampleHost) "sub/sub1" "unknown"
    {| root := Some exampleRoots; alias := None;
       extensions := Some [".css"; ".js"] |}
  = (Some "./test/examples/components/sub/sub1",
     [ Probe "./sub/sub1" "/proj/test/examples/components" [".css"; ".js"] ]).
Proof. reflexivity. Qed.

(** C10. An empty alias target behaves as no match: for a specifier that does
    not start with a dot and that no root resolves, when the longest prefix
    of the specifier in the alias table is mapped to the empty string,
    [mapModule] returns null. *)
Theorem empty_alias_target_is_no_match `{Host}
  (source file : string) (pluginOpts : PluginOpts) (k : nat) :
  Js.firstCharIs "." source = false →
  (∀ d, d ∈ default [] (root pluginOpts) → rootProbe source pluginOpts d = None) →
  longestAliasMatch (aliasTable pluginOpts) source k "" →
  returned (mapModule source file pluginOpts) = None.
Proof.
  intros Hdot Hfail Hmatch.
  by rewrite (mapModule_alias_hit source file pluginOpts Hdot _ k ""
                (searchRoots_none source file pluginOpts _ Hfail) Hmatch).
Qed.

Lemma empty_alias_target_is_no_match_witness :
  aliasTable (config [] [("legacy", ""); ("legacy/thing/deep", "x")])
    !! "legacy" = Some "" ∧
  returned (mapModule (H := exampleHost) "legacy/thing" "unknown"
              (config [] [("legacy", ""); ("legacy/thing/deep", "x")])) = None.
Proof.
  split; [reflexivity|].
  apply (empty_alias_target_is_no_match (H := exampleHost) "legacy/thing"
           "unknown" (config [] [("legacy", ""); ("legacy/thing/deep", "x")]) 1).
  - reflexivity.
  - no_root_resolves.
  - longest_match.
Defined.

(** ** The alias phase *)

Lemma replace_key (source : string) (k : nat) (aliasPath : string) :
  noDollar aliasPath = true →
  Js.replace source (prefixKey source k) aliasPath
  = aliasPath +:+ suffixAfter source k.
Proof.
  intros Hplain. pose proof (prefixKey_suffixAfter source k) as Hsplit.
  remember (prefixKey source k) as key. remember (suffixAfter source k) as suffix.
  rewrite Hsplit, replace_prefix. by rewrite getSubstitution_noDollar.
Qed.

(** C2 (amended). Longest-prefix alias lookup: for a specifier that does not
    start with a dot and that no root resolves, the alias phase looks up the
    whole specifier, then the specifier without its last segment, and so on.
    When the first [k] segments are the longest prefix in the configured
    table, the lookups stop there, and if the key is not [__proto__] (the
    one configured key the resolver's table never holds) and the target is
    not empty and holds no dollar, the result is the target (without its
    [npm:] marker) followed by the rest of the specifier, made relative to
    the importing file when the target starts with a dot.  When no prefix is
    in the table, every prefix down to the first segment was looked up and
    the result is null. *)
Theorem longest_prefix_alias_lookup `{Host}
  (source file : string) (pluginOpts : PluginOpts) :
  Js.firstCharIs "." source = false →
  (∀ d, d ∈ default [] (root pluginOpts) → rootProbe source pluginOpts d = None) →
  (∀ k target,
     longestAliasMatch (aliasTable pluginOpts) source k target →
     consulted (mapModule source file pluginOpts)
     = (rootProbeEvent source pluginOpts <$> default [] (root pluginOpts))
       ++ (AliasLookup <$> keysDownTo source k) ∧
     source = prefixKey source k +:+ suffixAfter source k ∧
     (prefixKey source k ≠ "__proto__" → target ≠ "" →
      noDollar (Js.stripNpm target) = true →
      returned (mapModule source file pluginOpts)
      = Some (aliasRewrite file target (suffixAfter source k)))) ∧
  (noAliasMatch (aliasTable pluginOpts) source →
   consulted (mapModule source file pluginOpts)
   = (rootProbeEvent source pluginOpts <$> default [] (root pluginOpts))
     ++ (AliasLookup <$> keysDownTo source 1) ∧
   returned (mapModule source file pluginOpts) = None).
Proof.
  intros Hdot Hfail. split.
  - intros k target Hmatch.
    rewrite (mapModule_alias_hit source file pluginOpts Hdot _ k target
               (searchRoots_none source file pluginOpts _ Hfail) Hmatch).
    split_and!; [done|apply prefixKey_suffixAfter|].
    intros Hkey Hne Hplain. cbn [returned fst].
    rewrite !decide_False by done. cbn zeta. rewrite replace_key by done.
    unfold aliasRewrite. by destruct (Js.firstCharIs "." (Js.stripNpm target)).
  - intros Hnone.
    by rewrite (mapModule_alias_miss source file pluginOpts Hdot _
                  (searchRoots_none source file pluginOpts _ Hfail) Hnone).
Qed.

Lemma longest_prefix_alias_lookup_witness :
  returned (mapModule (H := exampleHost) "awesome/components/my-comp" "unknown"
              (config [] exampleAliases))
  = Some "./src/components/my-comp" ∧
  consulted (mapModule (H := exampleHost) "awesome/components/my-comp" "unknown"
               (config [] exampleAliases))
  = [ AliasLookup "awesome/components/my-comp";
      AliasLookup "awesome/components" ] ∧
  returned (mapModule (H := exampleHost) "awesome/components" "unknown"
              (config [] exampleAliases))
  = Some "./src/components".
Proof.
  destruct (longest_prefix_alias_lookup (H := exampleHost)
              "awesome/components/my-comp" "unknown" (config [] exampleAliases))
    as [Hlong _]; [reflexivity|no_root_resolves|].
  destruct (longest_prefix_alias_lookup (H := exampleHost)
              "awesome/components" "unknown" (config [] exampleAliases))
    as [Hwhole _]; [reflexivity|no_root_resolves|].
  destruct (Hlong 2 "./src/components") as (Hlog & _ & Hresult);
    [longest_match|].
  destruct (Hwhole 2 "./src/components") as (_ & _ & Hresult');
    [longest_match|].
  split; [|split].
  - apply Hresult; [discriminate|discriminate|reflexivity].
  - exact Hlog.
  - apply Hresult'; [discriminate|discriminate|reflexivity].
Defined.

(** C2 as stated fails when the matched key is mapped to the empty string:
    the longest prefix [awesome/components] is in the table, and yet the
    result is null, not the rest of the specifier with the (empty) target in
    front of it. *)
Lemma longest_prefix_alias_lookup_not_for_empty_target :
  longestAliasMatch (aliasTable (config [] [("awesome/components", "")]))
    "awesome/components/my-comp" 2 "" ∧
  suffixAfter "awesome/components/my-comp" 2 = "/my-comp" ∧
  returned (mapModule (H := exampleHost) "awesome/components/my-comp" "unknown"
              (config [] [("awesome/components", "")]))
  = None.
Proof. split_and!; [longest_match|reflexivity|reflexivity]. Qed.

(** A configured key [__proto__] does not reach the table the resolver
    builds: the assignment that is to copy it runs the prototype setter.  The
    key is looked up and not found, and the specifier gets no rewrite. *)
Example proto_alias_key_is_lost :
  aliasTable (config [] [("__proto__", "npm:foo")]) !! "__proto__"
  = Some "npm:foo" ∧
  createAliasFileMap (config [] [("__proto__", "npm:foo")]) !! "__proto__"
  = None ∧
  mapModule (H := exampleHost) "__proto__/x" "unknown"
    (config [] [("__proto__", "npm:foo")])
  = (None, [AliasLookup "__proto__/x"; AliasLookup "__proto__"]).
Proof. split_and!; reflexivity. Qed.

(** C6 (amended). Legacy marker and bare packages: for a specifier that does
    not start with a dot and that no root resolves, when the longest prefix
    in the configured table is a key other than [__proto__] (the one
    configured key the resolver's table never holds) and is mapped to a
    target that is not empty, and [bare] is that target with a leading
    [npm:] removed: the marker is removed before use, whatever the target,
    in that the result is the one for [bare], the text [bare] being put for
    the key by [source.replace]; and when [bare] holds no dollar and does
    not start with a dot the result is [bare] followed by the rest of the
    specifier, whatever the importing file: nothing is made relative. *)
Theorem legacy_marker_and_bare_package `{Host}
  (source file : string) (pluginOpts : PluginOpts)
  (k : nat) (target bare : string) :
  Js.firstCharIs "." source = false →
  (∀ d, d ∈ default [] (root pluginOpts) → rootProbe source pluginOpts d = None) →
  longestAliasMatch (aliasTable pluginOpts) source k target →
  prefixKey source k ≠ "__proto__" →
  target ≠ "" →
  target = "npm:" +:+ bare ∨ (target = bare ∧ String.prefix "npm:" bare = false) →
  returned (mapModule source file pluginOpts)
  = Some (let newPath := Js.replace source (prefixKey source k) bare in
          if Js.firstCharIs "." bare
          then Utils.toLocalPath
                 (Utils.toPosixPath (Utils.mapToRelative cwd file newPath))
          else newPath) ∧
  (noDollar bare = true →
   (Js.firstCharIs "." bare = false →
    returned (mapModule source file pluginOpts)
    = Some (bare +:+ suffixAfter source k)) ∧
   (Js.firstCharIs "." bare = true →
    returned (mapModule source file pluginOpts)
    = Some (Utils.toLocalPath
              (Utils.toPosixPath
                 (Utils.mapToRelative cwd file
                    (bare +:+ suffixAfter source k)))))).
Proof.
  intros Hdot Hfail Hmatch Hkey Hne Hmarker.
  assert (Js.stripNpm target = bare) as Hstrip.
  { destruct Hmarker as [->|[-> Hno]];
      [apply stripNpm_marker|by apply stripNpm_plain]. }
  rewrite (mapModule_alias_hit source file pluginOpts Hdot _ k target
             (searchRoots_none source file pluginOpts _ Hfail) Hmatch).
  cbn [returned fst]. rewrite !decide_False by done. cbn zeta.
  rewrite Hstrip. split; [done|].
  intros Hplain. rewrite replace_key by done.
  split; by intros ->.
Qed.

Lemma legacy_marker_and_bare_package_witness :
  returned (mapModule (H := exampleHost) "abstract/thing" "lib/deep/file.js"
              (config exampleRoots exampleAliases))
  = Some "concrete/thing" ∧
  returned (mapModule (H := exampleHost) "underscore/map" "lib/deep/file.js"
              (config exampleRoots exampleAliases))
  = Some "lodash/map".
Proof.
  destruct (legacy_marker_and_bare_package (H := exampleHost) "abstract/thing"
              "lib/deep/file.js" (config exampleRoots exampleAliases)
              1 "npm:concrete" "concrete") as [_ Hmarked];
    [reflexivity|no_root_resolves|longest_match|discriminate|discriminate
    |by left|].
  destruct (legacy_marker_and_bare_package (H := exampleHost) "underscore/map"
              "lib/deep/file.js" (config exampleRoots exampleAliases)
              1 "lodash" "lodash") as [_ Hbare];
    [reflexivity|no_root_resolves|longest_match|discriminate|discriminate
    |right; by split|].
  split.
  - apply Hmarked; reflexivity.
  - apply Hbare; reflexivity.
Defined.

(** C6 as stated fails when the matched key is mapped to the empty string:
    the target does not start with a dot, and yet the result is null, not
    the rest of the specifier. *)
Lemma bare_package_not_for_empty_target :
  longestAliasMatch (aliasTable (config [] [("underscore", "")]))
    "underscore/map" 1 "" ∧
  Js.firstCharIs "." (Js.stripNpm "") = false ∧
  suffixAfter "underscore/map" 1 = "/map" ∧
  returned (mapModule (H := exampleHost) "underscore/map" "unknown"
              (config [] [("underscore", "")]))
  = None.
Proof. split_and!; [longest_match|reflexivity|reflexivity|reflexivity]. Qed.

(** The replacement text of [source.replace] is read for dollar patterns: a
    target with [$$] in it comes out with a single dollar. *)
Example alias_target_with_dollars :
  returned (mapModule (H := exampleHost) "jquery/ajax" "unknown"
              (config [] [("jquery", "vendor/$$")]))
  = Some "vendor/$/ajax".
Proof. reflexivity. Qed.

(** ** The stub table of a proxyquire call *)

Lemma isProxyquireCall_flag (nodePath : node) :
  isProxyquireCall nodePath
  = isImportMethodCall "proxyquire" nodePath
    || (isLoadOfCall nodePath &&
        match lastCallBelow nodePath with
        | Some childPath => isProxyquireCall childPath
        | None => false
        end).
Proof.
  rewrite isProxyquireCall_equation_1. unfold isProxyquireCall_unfold_clause_1.
  destruct (lastCallBelow nodePath); simpl; [done|].
  by rewrite andb_false_r, orb_false_r.
Qed.

(** A call is not both a [require] call and a proxyquire call. *)
Lemma isProxyquireCall_not_require (nodePath : node) :
  isProxyquireCall nodePath = true → isRequireCall nodePath = false.
Proof.
  rewrite isProxyquireCall_flag. unfold isRequireCall, isImportMethodCall.
  destruct nodePath as [| |?|callee args| |]; try done.
  destruct callee as [|name|object property| | |]; try done; simpl.
  - rewrite !orb_false_r. by intros ->%bool_decide_eq_true.
  - destruct object as [|name| | | |]; simpl; try done.
    rewrite orb_false_r. by intros ->%bool_decide_eq_true.
Qed.

Section Stubs.
Context `{Host}.

Lemma transformModulePath_literal (state : State) (value : string)
  (filename : option string) (file : string) :
  file = match filename with
         | Some f => if truthy f then f else state.(file_opts_filename)
         | None => state.(file_opts_filename)
         end →
  transformModulePath (Some (StringLiteral value)) state filename
  = match returned (mapModule value file state.(opts)) with
    | Some modulePath =>
        if decide (modulePath = "") then None
        else Some (StringLiteral modulePath)
    | None => None
    end.
Proof.
  intros ->. unfold transformModulePath, truthy.
  destruct (returned _) as [modulePath|]; [|done].
  by destruct (decide (modulePath = "")) as [->|?];
    [|rewrite bool_decide_eq_false_2].
Qed.

Lemma transformObjectExpression_stubs (state : State) (parent : string)
  (stubs : list property) :
  parent ≠ "" →
  transformObjectExpression parent stubs state
  = ObjectExpression (rewriteStub state.(opts) parent <$> stubs).
Proof.
  intros Hparent. unfold transformObjectExpression. f_equal.
  apply Forall_fmap_ext, Forall_forall. intros stub _.
  destruct stub as [key value|argument]; [|done].
  destruct key as [key| | | | |]; try done. cbn [propertyKey].
  rewrite (transformModulePath_literal state key (Some parent) parent).
  - unfold rewriteStub.
    destruct (returned _) as [rewritten|]; [|done]. by case_decide.
  - unfold truthy. by rewrite bool_decide_eq_false_2.
Qed.

End Stubs.

(** What the visitor does with a proxyquire call whose specifier gets the
    rewrite [parent] and whose second argument is an object literal: the call
    is replaced by one with the rewritten specifier and the stub table in
    which every member is rewritten as [rewriteStub] says, with [parent], the
    string now in the call, as the importing file. *)
Lemma proxyquire_stubs_rewritten `{Host} (state : State) (callee : node)
  (source parent : string) (stubs : list property) (rest : list node) :
  isProxyquireCall
    (CallExpression callee (StringLiteral source :: ObjectExpression stubs :: rest))
  = true →
  returned (mapModule source state.(file_opts_filename) state.(opts))
  = Some parent →
  parent ≠ "" →
  transformMethodCall
    (CallExpression callee (StringLiteral source :: ObjectExpression stubs :: rest))
    state
  = CallExpression callee
      [ StringLiteral parent;
        ObjectExpression (rewriteStub state.(opts) parent <$> stubs) ].
Proof.
  intros Hcall Hparent Hne.
  unfold transformMethodCall, transformRequireCall.
  rewrite (isProxyquireCall_not_require _ Hcall). cbn [negb].
  unfold transformProxyquireCall. rewrite Hcall.
  cbn [negb callArguments lookup list_lookup].
  rewrite (transformModulePath_literal state source None
             state.(file_opts_filename)) by done.
  rewrite Hparent, decide_False by done.
  rewrite transformObjectExpression_stubs by done. done.
Qed.

(** The case of the repository's test: a call in a file of the working
    directory. *)
Example proxyquire_stubs_in_working_directory :
  transformMethodCall (H := exampleHost)
    (CallExpression (Identifier "proxyquire")
       [ StringLiteral "c1";
         ObjectExpression
           [ ObjectProperty (StringLiteral "c2") (Identifier "stub");
             ObjectProperty (StringLiteral "lodash") (OtherNode "ObjectExpression") ] ])
    {| file_opts_filename := "unknown"; opts := config exampleRoots [] |}
  = CallExpression (Identifier "proxyquire")
      [ StringLiteral "./test/examples/components/c1";
        ObjectExpression
          [ ObjectProperty (StringLiteral "./c2") (Identifier "stub");
            ObjectProperty (StringLiteral "lodash") (OtherNode "ObjectExpression") ] ].
Proof. reflexivity. Qed.

(** C8 (code bug). Stub-table rewriting: a stub key is to be resolved again
    relative to the file its parent specifier resolved to.  For a call in
    [lib/x.js] the parent [c1] resolves to
    [/proj/test/examples/components/c1.js] and is rewritten to
    [../test/examples/components/c1]; the visitor hands that string, which is
    relative to [lib], to [mapModule] as the importing file, where it is read
    from the working directory.  The key [c2], a sibling of [c1], comes out
    as [../../../proj/test/examples/components/c2], whereas resolving it from
    the file of the parent gives [./c2].  The value of the key is kept. *)
Theorem stub_key_resolved_from_working_directory :
  transformMethodCall (H := exampleHost)
    (CallExpression (Identifier "proxyquire")
       [ StringLiteral "c1";
         ObjectExpression
           [ ObjectProperty (StringLiteral "c2") (Identifier "stub") ] ])
    {| file_opts_filename := "lib/x.js"; opts := config exampleRoots [] |}
  = CallExpression (Identifier "proxyquire")
      [ StringLiteral "../test/examples/components/c1";
        ObjectExpression
          [ ObjectProperty
              (StringLiteral "../../../proj/test/examples/components/c2")
              (Identifier "stub") ] ] ∧
  rootProbe (H := exampleHost) "c1" (config exampleRoots [])
    "./test/examples/components"
  = Some "/proj/test/examples/components/c1.js" ∧
  returned (mapModule (H := exampleHost) "c2"
              "/proj/test/examples/components/c1.js" (config exampleRoots []))
  = Some "./c2".
Proof. split_and!; reflexivity. Qed.

(** Arguments after the stub table do not survive the rewrite. *)
Example proxyquire_later_arguments_dropped :
  transformMethodCall (H := exampleHost)
    (CallExpression (Identifier "proxyquire")
       [ StringLiteral "c1"; ObjectExpression []; Identifier "extra" ])
    {| file_opts_filename := "unknown"; opts := config exampleRoots [] |}
  = CallExpression (Identifier "proxyquire")
      [ StringLiteral "./test/examples/components/c1"; ObjectExpression [] ].
Proof. reflexivity. Qed.

(** * Further facts *)

(** ** The alias table as configured *)

(** X1. The alias table the resolver looks keys up in holds the entries of
    the [alias] option, but for one under the key [__proto__], and nothing
    else: the key [__proto__] is never in the table, any other key has the
    target it was configured with, and a key that was not configured is not
    in the table (no key at all when the option is left out). *)
Theorem alias_table_holds_configured_entries (pluginOpts : PluginOpts)
  (key : string) :
  createAliasFileMap pluginOpts !! key
  = if decide (key = "__proto__") then None
    else match alias pluginOpts with
         | Some configured => configured !! key
         | None => None
         end.
Proof.
  rewrite createAliasFileMap_lookup. unfold aliasTable.
  case_decide; [done|].
  destruct (alias pluginOpts); [done|]. apply lookup_empty.
Qed.

(** ** Every run of the resolver *)

(** Among the prefixes of a specifier either none is a key of the table or
    there is a longest one that is. *)
Lemma alias_match_cases (table : gmap string string) (source : string) :
  noAliasMatch table source ∨ ∃ k target, longestAliasMatch table source k target.
Proof.
  unfold noAliasMatch, longestAliasMatch.
  generalize (length (Js.split "/" source)) as n.
  induction n as [|n IH].
  - left. intros j Hj. lia.
  - destruct (table !! prefixKey source (S n)) as [target|] eqn:E.
    + right. exists (S n), target. split_and!; [lia|lia|done|intros; lia].
    + destruct IH as [Hnone|(k & target & Hk & Hhit & Hlonger)].
      * left. intros j Hj. destruct (decide (j = S n)) as [->|]; [done|].
        apply Hnone. lia.
      * right. exists k, target. split_and!; [lia|lia|done|].
        intros j Hj. destruct (decide (j = S n)) as [->|]; [done|].
        apply Hlonger. lia.
Qed.

(** The four ways a run of [mapModule] can go. *)
Lemma mapModule_cases `{Host} (source file : string) (pluginOpts : PluginOpts) :
  let roots := default [] (root pluginOpts) in
  (Js.firstCharIs "." source = true ∧
   mapModule source file pluginOpts = (None, []))
  ∨ (Js.firstCharIs "." source = false ∧
     ∃ before rootDir after resolved,
       roots = before ++ rootDir :: after ∧
       (∀ d, d ∈ before → rootProbe source pluginOpts d = None) ∧
       rootProbe source pluginOpts rootDir = Some resolved ∧
       mapModule source file pluginOpts
       = (Some (mapResolved source file resolved),
          rootProbeEvent source pluginOpts <$> (before ++ [rootDir])))
  ∨ (Js.firstCharIs "." source = false ∧
     (∀ d, d ∈ roots → rootProbe source pluginOpts d = None) ∧
     noAliasMatch (aliasTable pluginOpts) source ∧
     mapModule source file pluginOpts
     = (None, (rootProbeEvent source pluginOpts <$> roots)
              ++ (AliasLookup <$> keysDownTo source 1)))
  ∨ (Js.firstCharIs "." source = false ∧
     (∀ d, d ∈ roots → rootProbe source pluginOpts d = None) ∧
     ∃ k target,
       longestAliasMatch (aliasTable pluginOpts) source k target ∧
       mapModule source file pluginOpts
       = (if decide (target = "") then None
          else if decide (prefixKey source k = "__proto__") then None
          else
            let aliasPath := Js.stripNpm target in
            let newPath := Js.replace source (prefixKey source k) aliasPath in
            Some (if Js.firstCharIs "." aliasPath
                  then Utils.toLocalPath
                         (Utils.toPosixPath
                            (Utils.mapToRelative cwd file newPath))
                  else newPath),
          (rootProbeEvent source pluginOpts <$> roots)
          ++ (AliasLookup <$> keysDownTo source k))).
Proof.
  intros roots.
  destruct (Js.firstCharIs "." source) eqn:Hdot.
  { left. split; [done|]. unfold mapModule. by rewrite Hdot. }
  right.
  destruct (searchRoots_run source file pluginOpts roots)
    as [(before & rootDir & after & resolved & Hroots & Hfail & Hok & Hrun)
       |[Hfail Hrun]].
  { left. split; [done|]. exists before, rootDir, after, resolved.
    split_and!; [done..|]. by apply mapModule_root_hit. }
  right.
  destruct (alias_match_cases (aliasTable pluginOpts) source)
    as [Hnone|(k & target & Hmatch)].
  - left. split_and!; [done..|]. by apply mapModule_alias_miss.
  - right. split_and!; [done..|]. exists k, target. split; [done|].
    by apply mapModule_alias_hit.
Qed.

(** X2. What a run consults, for any specifier, file and configuration:
    probes of the first [n] root directories, in configuration order, and
    after them lookups of alias keys; when any key is looked up, every root
    was probed before, and the keys are the prefixes of the specifier from
    the whole of it down to some length [k], longest first. *)
Theorem consultation_order `{Host} (source file : string)
  (pluginOpts : PluginOpts) :
  ∃ (n : nat) (keys : list string),
    consulted (mapModule source file pluginOpts)
    = (rootProbeEvent source pluginOpts <$> take n (default [] (root pluginOpts)))
      ++ (AliasLookup <$> keys) ∧
    (keys = [] ∨
     (length (default [] (root pluginOpts)) ≤ n ∧
      ∃ k, 1 ≤ k ≤ length (Js.split "/" source) ∧ keys = keysDownTo source k)).
Proof.
  unfold consulted.
  destruct (mapModule_cases source file pluginOpts)
    as [[_ ->]
       |[(_ & before & rootDir & after & resolved & -> & _ & _ & ->)
        |[(_ & _ & _ & ->)|(_ & _ & k & target & (Hk & _) & ->)]]];
    cbn [snd].
  - exists 0, []. split; [done|by left].
  - exists (length (before ++ [rootDir])), []. split; [|by left].
    cbn [fmap list_fmap]. rewrite (right_id_L [] (++)). f_equal.
    replace (before ++ rootDir :: after) with ((before ++ [rootDir]) ++ after)
      by (by rewrite <-(assoc_L (++))).
    by rewrite take_app_length.
  - exists (length (default [] (root pluginOpts))), (keysDownTo source 1).
    split; [by rewrite firstn_all|]. right. split; [done|].
    exists 1. split; [|done].
    pose proof (js_split_nonempty "/" source).
    destruct (Js.split "/" source); [done|simpl; lia].
  - exists (length (default [] (root pluginOpts))), (keysDownTo source k).
    split; [by rewrite firstn_all|]. right. split; [done|]. by exists k.
Qed.

(** X3. When the resolver gives no rewrite: exactly when the specifier
    starts with a dot, or no root directory resolves it and either no prefix
    of it is a configured alias key, or the longest prefix that is one has
    the empty string for its target or is the key [__proto__]. *)
Theorem no_rewrite_iff `{Host} (source file : string) (pluginOpts : PluginOpts) :
  returned (mapModule source file pluginOpts) = None
  ↔ Js.firstCharIs "." source = true
    ∨ ((∀ d, d ∈ default [] (root pluginOpts) →
             rootProbe source pluginOpts d = None) ∧
       (noAliasMatch (aliasTable pluginOpts) source
        ∨ ∃ k target,
            longestAliasMatch (aliasTable pluginOpts) source k target ∧
            (target = "" ∨ prefixKey source k = "__proto__"))).
Proof.
  unfold returned.
  destruct (mapModule_cases source file pluginOpts)
    as [[Hdot ->]
       |[(Hdot & before & rootDir & after & resolved & Hroots & _ & Hok & ->)
        |[(Hdot & Hfail & Hnone & ->)
         |(Hdot & Hfail & k & target & Hmatch & ->)]]];
    cbn [fst].
  - split; [by left|done].
  - split; [done|]. intros [?|[Hfail _]]; [congruence|].
    rewrite Hfail in Hok; [done|]. rewrite Hroots. set_solver.
  - split; [|done]. intros _. right. split; [done|by left].
  - split.
    + intros Hnull. right. split; [done|]. right. exists k, target.
      split; [done|]. repeat case_decide; [by left|by right|done].
    + intros [?|[_ [Hnone|(k' & target' & Hmatch' & Hwhy)]]]; [congruence| |].
      * destruct Hmatch as (Hk & Hhit & _). rewrite Hnone in Hhit; [done|lia].
      * destruct Hmatch as (Hk & Hhit & Hlonger).
        destruct Hmatch' as (Hk' & Hhit' & Hlonger').
        assert (k' = k) as ->.
        { destruct (Nat.lt_trichotomy k' k) as [Hlt|[->|Hlt]]; [|done|].
          - rewrite Hlonger' in Hhit; [done|lia].
          - rewrite Hlonger in Hhit'; [done|lia]. }
        rewrite Hhit in Hhit'. injection Hhit' as <-.
        destruct Hwhy as [->|Hproto]; [done|].
        case_decide; [done|]. by rewrite decide_True.
Qed.

(** X4. The importing file has no part in what is consulted nor in whether
    a rewrite is found: two runs on the same specifier and configuration from
    different files consult the same things in the same order, and the one
    gives a rewrite exactly when the other does. *)
Theorem importing_file_decides_neither_log_nor_match `{Host}
  (source file file' : string) (pluginOpts : PluginOpts) :
  consulted (mapModule source file pluginOpts)
  = consulted (mapModule source file' pluginOpts) ∧
  (is_Some (returned (mapModule source file pluginOpts))
   ↔ is_Some (returned (mapModule source file' pluginOpts))).
Proof.
  unfold consulted, returned.
  destruct (mapModule_cases source file pluginOpts)
    as [[Hdot ->]
       |[(Hdot & before & rootDir & after & resolved & Hroots & Hbefore & Hok & ->)
        |[(Hdot & Hfail & Hnone & ->)
         |(Hdot & Hfail & k & target & Hmatch & ->)]]].
  - unfold mapModule. by rewrite Hdot.
  - rewrite (mapModule_first_root source file' pluginOpts before after rootDir
               resolved Hdot); [done| |done|done].
    destruct (root pluginOpts); simpl in Hroots; [by subst|by destruct before].
  - rewrite (mapModule_alias_miss source file' pluginOpts Hdot
               (rootProbeEvent source pluginOpts <$> default [] (root pluginOpts)));
      [done| |done].
    by apply searchRoots_none.
  - rewrite (mapModule_alias_hit source file' pluginOpts Hdot
               (rootProbeEvent source pluginOpts <$> default [] (root pluginOpts))
               k target); [| |done].
    + split; [done|]. by repeat case_decide.
    + by apply searchRoots_none.
Qed.

(** ** Configurations without root directories *)

(** X5. With [root] left out or empty the filesystem is never probed, and
    the run is the same on any two filesystems with the same working
    directory, whatever the [extensions] option says. *)
Theorem no_root_no_probe (host host' : Host) (source file : string)
  (pluginOpts pluginOpts' : PluginOpts) :
  cwd (Host := host) = cwd (Host := host') →
  default [] (root pluginOpts) = [] →
  default [] (root pluginOpts') = [] →
  alias pluginOpts = alias pluginOpts' →
  mapModule (H := host) source file pluginOpts
  = mapModule (H := host') source file pluginOpts' ∧
  ∀ request basedir exts,
    Probe request basedir exts ∉ consulted (mapModule (H := host) source file pluginOpts).
Proof.
  intros Hcwd Hroot Hroot' Halias. split.
  - unfold mapModule. rewrite Hroot, Hroot'. cbn [searchRoots].
    unfold createAliasFileMap. rewrite Halias, Hcwd. done.
  - intros request basedir exts. unfold consulted, mapModule.
    destruct (Js.firstCharIs "." source); [apply not_elem_of_nil|].
    rewrite Hroot. cbn [searchRoots]. rewrite !bind_run. cbn [fst snd app].
    destruct (aliasLoop_log (createAliasFileMap pluginOpts) (Js.split "/" source))
      as [keys Hkeys].
    rewrite Hkeys.
    destruct (aliasLoop _ _) as [[[aliasPath|] segs] log]; cbn [fst snd];
      [case_decide; [|destruct (negb _)]|];
      cbn [snd mret M_ret]; rewrite (right_id_L [] (++));
      by intros (key & ? & _)%list_elem_of_fmap.
Qed.

Lemma no_root_no_probe_witness :
  mapModule (H := exampleHost) "utils/pad" "lib/a.js"
    (config [] exampleAliases)
  = mapModule (H := projectHost []) "utils/pad" "lib/a.js"
      {| root := None; alias := Some (list_to_map exampleAliases);
         extensions := Some [".ts"] |} ∧
  ∀ request basedir exts,
    Probe request basedir exts
    ∉ consulted (mapModule (H := exampleHost) "utils/pad" "lib/a.js"
                   (config [] exampleAliases)).
Proof.
  apply (no_root_no_probe exampleHost (projectHost []) "utils/pad" "lib/a.js"
           (config [] exampleAliases)
           {| root := None; alias := Some (list_to_map exampleAliases);
              extensions := Some [".ts"] |});
    reflexivity.
Defined.

(** ** Alias targets as replacement text *)

(** X6. An alias target is used as the replacement text of
    [String.prototype.replace], so its dollar patterns are expanded: when the
    first [k] segments of the specifier are its longest prefix among the
    configured alias keys, the key not being [__proto__], with a target that
    is not empty, the result is the target (without its [npm:] marker)
    expanded for the match of that key at the start of the specifier,
    followed by the rest of the specifier; made relative to the importing
    file when the marker-stripped target starts with a dot. *)
Theorem alias_target_dollar_patterns `{Host} (source file : string)
  (pluginOpts : PluginOpts) (k : nat) (target : string) :
  Js.firstCharIs "." source = false →
  (∀ d, d ∈ default [] (root pluginOpts) → rootProbe source pluginOpts d = None) →
  longestAliasMatch (aliasTable pluginOpts) source k target →
  prefixKey source k ≠ "__proto__" →
  target ≠ "" →
  let expanded :=
    Js.getSubstitution (prefixKey source k) "" (suffixAfter source k)
      (Js.stripNpm target) +:+ suffixAfter source k in
  returned (mapModule source file pluginOpts)
  = Some (if Js.firstCharIs "." (Js.stripNpm target)
          then Utils.toLocalPath
                 (Utils.toPosixPath (Utils.mapToRelative cwd file expanded))
          else expanded).
Proof.
  intros Hdot Hfail Hmatch Hkey Hne expanded.
  rewrite (mapModule_alias_hit source file pluginOpts Hdot
             (rootProbeEvent source pluginOpts <$> default [] (root pluginOpts))
             k target); [| |done].
  - unfold returned. cbn [fst]. rewrite !decide_False by done. cbn zeta.
    assert (Js.replace source (prefixKey source k) (Js.stripNpm target)
            = expanded) as ->; [|done].
    unfold expanded. pose proof (prefixKey_suffixAfter source k) as Hsplit.
    remember (prefixKey source k) as key.
    remember (suffixAfter source k) as suffix.
    rewrite Hsplit at 1. apply replace_prefix.
  - by apply searchRoots_none.
Qed.

Lemma alias_target_dollar_patterns_witness :
  returned (mapModule (H := exampleHost) "jquery/ajax" "lib/a.js"
              (config [] [("jquery", "npm:$&-fork/$$")]))
  = Some "jquery-fork/$/ajax" ∧
  returned (mapModule (H := exampleHost) "jquery/ajax" "lib/a.js"
              (config [] [("jquery", "vendor$'")]))
  = Some "vendor/ajax/ajax".
Proof.
  split.
  - apply (alias_target_dollar_patterns (H := exampleHost) "jquery/ajax"
             "lib/a.js" (config [] [("jquery", "npm:$&-fork/$$")])
             1 "npm:$&-fork/$$");
      [reflexivity|no_root_resolves|longest_match|discriminate|discriminate].
  - apply (alias_target_dollar_patterns (H := exampleHost) "jquery/ajax"
             "lib/a.js" (config [] [("jquery", "vendor$'")])
             1 "vendor$'");
      [reflexivity|no_root_resolves|longest_match|discriminate|discriminate].
Defined.

(** X7. A target that is the [npm:] marker and nothing else is not the empty
    target: the matched key (any configured key but [__proto__]) is cut off
    the specifier and the rest is the result, the empty string when the key
    is the whole specifier. *)
Theorem marker_only_target_cuts_the_key `{Host} (source file : string)
  (pluginOpts : PluginOpts) (k : nat) :
  Js.firstCharIs "." source = false →
  (∀ d, d ∈ default [] (root pluginOpts) → rootProbe source pluginOpts d = None) →
  longestAliasMatch (aliasTable pluginOpts) source k "npm:" →
  prefixKey source k ≠ "__proto__" →
  returned (mapModule source file pluginOpts) = Some (suffixAfter source k) ∧
  (k = length (Js.split "/" source) →
   returned (mapModule source file pluginOpts) = Some "").
Proof.
  intros Hdot Hfail Hmatch Hkey.
  assert (returned (mapModule source file pluginOpts)
          = Some (suffixAfter source k)) as Hret.
  { rewrite (mapModule_alias_hit source file pluginOpts Hdot
               (rootProbeEvent source pluginOpts <$> default [] (root pluginOpts))
               k "npm:"); [| |done].
    - unfold returned. cbn [fst]. rewrite !decide_False by done.
      change (Js.stripNpm "npm:") with "". cbn zeta.
      change (Js.firstCharIs "." "") with false. cbv iota.
      by rewrite replace_key, str_app_nil_l.
    - by apply searchRoots_none. }
  split; [done|]. intros ->. rewrite Hret. f_equal.
  unfold suffixAfter. rewrite prefixKey_all. apply str_drop_all.
Qed.

Lemma marker_only_target_cuts_the_key_witness :
  returned (mapModule (H := exampleHost) "legacy/deep/mod" "lib/a.js"
              (config [] [("legacy/deep", "npm:")]))
  = Some "/mod" ∧
  returned (mapModule (H := exampleHost) "legacy" "lib/a.js"
              (config [] [("legacy", "npm:")]))
  = Some "".
Proof.
  split.
  - apply (marker_only_target_cuts_the_key (H := exampleHost) "legacy/deep/mod"
             "lib/a.js" (config [] [("legacy/deep", "npm:")]) 2);
      [reflexivity|no_root_resolves|longest_match|discriminate].
  - apply (marker_only_target_cuts_the_key (H := exampleHost) "legacy"
             "lib/a.js" (config [] [("legacy", "npm:")]) 1);
      [reflexivity|no_root_resolves|longest_match|discriminate|reflexivity].
Defined.

(** ** [replaceExt] and the extension of a path *)

(** X8. On a normalized relative path [dirs/name], putting the path's own
    extension back is the identity, and taking the extension off and writing
    it behind gives the path again, as long as what is left of the name is
    still a name. *)
Theorem replaceExt_own_extension (dirs : list string) (name : string) :
  isRelativeDirs dirs = true → isPlainName name = true →
  let p := Js.join "/" (dirs ++ [name]) in
  replaceExt p (Path.extname p) = p ∧
  (isPlainName (fileStem name) = true →
   replaceExt p "" +:+ Path.extname p = p).
Proof.
  intros Hdirs Hname p.
  assert (Path.extname p = Path.extname name) as Hext
    by (by apply extname_join; [apply isRelativeDirs_noSlash|]).
  destruct (fileStem_spec name Hname) as [Hsplit _].
  rewrite Hext. split.
  - unfold p. rewrite replaceExt_join; [by rewrite <-Hsplit|done|done|].
    by rewrite <-Hsplit.
  - intros Hstem. unfold p.
    rewrite replaceExt_join by (by rewrite ?str_app_nil_r).
    rewrite str_app_nil_r, !js_join_snoc, str_app_assoc.
    by rewrite <-Hsplit.
Qed.

Lemma replaceExt_own_extension_witness :
  replaceExt "../lib/a.test.js" (Path.extname "../lib/a.test.js")
  = "../lib/a.test.js" ∧
  replaceExt "../lib/a.test.js" "" +:+ Path.extname "../lib/a.test.js"
  = "../lib/a.test.js".
Proof.
  pose proof (replaceExt_own_extension [".."; "lib"] "a.test.js"
                eq_refl eq_refl) as [Hsame Hback].
  split; [exact Hsame|exact (Hback eq_refl)].
Defined.

(** ** Which calls are proxyquire calls *)

Lemma lastCallBelow_call (callee : node) (arguments : list node) :
  lastCallBelow (CallExpression callee arguments)
  = orLater (lastCall callee) (lastCallIn arguments).
Proof. reflexivity. Qed.

(** X9. A call [<call>.property(arguments)]: it is a proxyquire call exactly
    when the property is [load] and the call expression the traversal leaves
    last is one, and that is the last call expression among the arguments
    when they hold any, the object of the callee otherwise. *)
Theorem load_chain_verdict (objectCallee property : node)
  (objectArguments arguments : list node) :
  let object := CallExpression objectCallee objectArguments in
  isProxyquireCall (CallExpression (MemberExpression object property) arguments)
  = isIdentifier property "load"
    && isProxyquireCall (default object (lastCallIn arguments)).
Proof.
  intros object. rewrite isProxyquireCall_flag.
  change (isImportMethodCall "proxyquire"
            (CallExpression (MemberExpression object property) arguments))
    with false.
  change (isLoadOfCall
            (CallExpression (MemberExpression object property) arguments))
    with (isIdentifier property "load").
  cbn [orb]. destruct (isIdentifier property "load") eqn:Hload; [|done].
  cbn [andb]. rewrite lastCallBelow_call.
  destruct property; try discriminate. cbn [lastCall orLater].
  by destruct (lastCallIn arguments).
Qed.

(** A chain of one link is recognised, a longer one is not: the object of
    [.load] is then a call that is neither [proxyquire(...)] nor
    [proxyquire.m(...)] nor a [.load] call. *)
Example load_chain_lengths :
  isProxyquireCall
    (CallExpression
       (MemberExpression
          (CallExpression
             (MemberExpression (Identifier "proxyquire") (Identifier "noCallThru"))
             [])
          (Identifier "load"))
       [StringLiteral "c1"])
  = true ∧
  isProxyquireCall
    (CallExpression
       (MemberExpression
          (CallExpression
             (MemberExpression
                (CallExpression
                   (MemberExpression (Identifier "proxyquire")
                      (Identifier "noCallThru"))
                   [])
                (Identifier "noPreserveCache"))
             [])
          (Identifier "load"))
       [StringLiteral "c1"])
  = false.
Proof. split; reflexivity. Qed.

Section CallShapes.
Context `{Host}.

(** The callee of [<call>.property(...)] is no [require]. *)
Lemma isRequireCall_member_of_call (objectCallee property : node)
  (objectArguments arguments : list node) :
  isRequireCall
    (CallExpression
       (MemberExpression (CallExpression objectCallee objectArguments) property)
       arguments)
  = false.
Proof. reflexivity. Qed.

Lemma transformRequireCall_not_require (nodePath : node) (state : State) :
  isRequireCall nodePath = false → transformRequireCall nodePath state = nodePath.
Proof. unfold transformRequireCall. by intros ->. Qed.

Lemma transformProxyquireCall_not_proxyquire (nodePath : node) (state : State) :
  isProxyquireCall nodePath = false →
  transformProxyquireCall nodePath state = nodePath.
Proof. unfold transformProxyquireCall. by intros ->. Qed.

(** What [transformModulePath] gives for the first argument of a call. *)
Lemma transformModulePath_cases (module : option node) (state : State) :
  (transformModulePath module state None = None ∧
   ∀ source parent,
     module = Some (StringLiteral source) →
     returned (mapModule source state.(file_opts_filename) state.(opts))
     = Some parent →
     parent = "")
  ∨ ∃ source parent,
      module = Some (StringLiteral source) ∧
      returned (mapModule source state.(file_opts_filename) state.(opts))
      = Some parent ∧
      parent ≠ "" ∧
      transformModulePath module state None = Some (StringLiteral parent).
Proof.
  destruct module as [[source| | | | |]|];
    try (left; split; [done|intros; discriminate]).
  rewrite (transformModulePath_literal state source None
             state.(file_opts_filename)) by done.
  destruct (returned _) as [parent|] eqn:E.
  - case_decide as Hp.
    + left. split; [done|]. intros s p [= <-] Hp'. rewrite E in Hp'.
      by injection Hp' as <-.
    + right. by exists source, parent.
  - left. split; [done|]. intros s p [= <-] Hp'. by rewrite E in Hp'.
Qed.

(** The require transform: a rewrite of the first argument, the other
    arguments kept. *)
Lemma transformRequireCall_run (callee : node) (arguments : list node)
  (state : State) :
  isRequireCall (CallExpression callee arguments) = true →
  transformRequireCall (CallExpression callee arguments) state
  = match transformModulePath (arguments !! 0) state None with
    | Some modulePath => CallExpression callee (modulePath :: drop 1 arguments)
    | None => CallExpression callee arguments
    end.
Proof. unfold transformRequireCall. by intros ->. Qed.

End CallShapes.

Section Calls.
Context `{Host}.

(** Whether a call is an import-method call is read off its callee. *)
Lemma isImportMethodCall_callee (methodName : string) (callee : node)
  (arguments arguments' : list node) :
  isImportMethodCall methodName (CallExpression callee arguments)
  = isImportMethodCall methodName (CallExpression callee arguments').
Proof. reflexivity. Qed.

Lemma isProxyquireCall_is_call (nodePath : node) :
  isProxyquireCall nodePath = true →
  ∃ callee arguments, nodePath = CallExpression callee arguments.
Proof.
  rewrite isProxyquireCall_flag.
  destruct nodePath as [| | |callee arguments| |]; try done. by eexists _, _.
Qed.

Lemma isRequireCall_is_call (nodePath : node) :
  isRequireCall nodePath = true →
  ∃ callee arguments, nodePath = CallExpression callee arguments.
Proof.
  destruct nodePath as [| | |callee arguments| |]; try done. by eexists _, _.
Qed.

(** A require call goes through the proxyquire transform as it is. *)
Lemma transformProxyquireCall_require (nodePath : node) (state : State) :
  isRequireCall nodePath = true →
  transformProxyquireCall nodePath state = nodePath.
Proof.
  intros Hreq. apply transformProxyquireCall_not_proxyquire.
  destruct (isProxyquireCall nodePath) eqn:E; [|done].
  apply isProxyquireCall_not_require in E. congruence.
Qed.

(** The proxyquire transform once the first argument has a rewrite. *)
Lemma transformProxyquireCall_run (callee : node) (arguments : list node)
  (state : State) (parent : string) :
  isProxyquireCall (CallExpression callee arguments) = true →
  transformModulePath (arguments !! 0) state None = Some (StringLiteral parent) →
  transformProxyquireCall (CallExpression callee arguments) state
  = match arguments !! 1 with
    | Some (ObjectExpression properties) =>
        CallExpression callee
          [ StringLiteral parent;
            transformObjectExpression parent properties state ]
    | _ => CallExpression callee (StringLiteral parent :: drop 1 arguments)
    end.
Proof.
  intros Hcall Hpath. unfold transformProxyquireCall.
  rewrite Hcall. cbn [negb callArguments]. rewrite Hpath.
  by destruct (arguments !! 1) as [[| | | | |]|].
Qed.

(** The visitor on a call whose first argument has no rewrite. *)
Lemma transformMethodCall_no_rewrite (nodePath : node) (state : State) :
  transformModulePath (callArguments nodePath !! 0) state None = None →
  transformMethodCall nodePath state = nodePath.
Proof.
  intros Hnone.
  assert (transformRequireCall nodePath state = nodePath) as Hreq.
  { unfold transformRequireCall. rewrite Hnone. by destruct (negb _). }
  unfold transformMethodCall. rewrite Hreq.
  unfold transformProxyquireCall. rewrite Hnone. by destruct (negb _).
Qed.

(** The visitor on a require call. *)
Lemma transformMethodCall_require (callee : node) (arguments : list node)
  (state : State) :
  isRequireCall (CallExpression callee arguments) = true →
  transformMethodCall (CallExpression callee arguments) state
  = match transformModulePath (arguments !! 0) state None with
    | Some modulePath => CallExpression callee (modulePath :: drop 1 arguments)
    | None => CallExpression callee arguments
    end.
Proof.
  intros Hreq. unfold transformMethodCall.
  rewrite transformRequireCall_run by done.
  destruct (transformModulePath _ _ _);
    by rewrite transformProxyquireCall_require.
Qed.

End Calls.

(** X10. A [.load] call with a call expression among its arguments is judged
    by the last of them: when that one is no proxyquire call, the visitor
    leaves the [.load] call as it is, whatever its object and its
    specifier. *)
Theorem load_call_with_other_call_in_arguments `{Host}
  (objectCallee property child : node) (objectArguments arguments : list node)
  (state : State) :
  lastCallIn arguments = Some child →
  isProxyquireCall child = false →
  let nodePath :=
    CallExpression
      (MemberExpression (CallExpression objectCallee objectArguments) property)
      arguments in
  isProxyquireCall nodePath = false ∧
  transformMethodCall nodePath state = nodePath.
Proof.
  intros Hlast Hchild nodePath.
  assert (isProxyquireCall nodePath = false) as Hno.
  { rewrite isProxyquireCall_flag. unfold nodePath.
    rewrite lastCallBelow_call, Hlast. cbn [orLater]. rewrite Hchild.
    by rewrite andb_false_r. }
  split; [done|]. unfold transformMethodCall.
  rewrite transformRequireCall_not_require by done.
  by apply transformProxyquireCall_not_proxyquire.
Qed.

Lemma load_call_with_other_call_in_arguments_witness :
  let nodePath :=
    CallExpression
      (MemberExpression
         (CallExpression
            (MemberExpression (Identifier "proxyquire") (Identifier "noCallThru"))
            [])
         (Identifier "load"))
      [ StringLiteral "c1";
        ObjectExpression
          [ ObjectProperty (StringLiteral "c2")
              (CallExpression
                 (MemberExpression (Identifier "sinon") (Identifier "stub"))
                 []) ] ] in
  isProxyquireCall nodePath = false ∧
  transformMethodCall (H := exampleHost) nodePath
    {| file_opts_filename := "unknown"; opts := config exampleRoots [] |}
  = nodePath.
Proof.
  apply (load_call_with_other_call_in_arguments (H := exampleHost)
           (MemberExpression (Identifier "proxyquire") (Identifier "noCallThru"))
           (Identifier "load")
           (CallExpression
              (MemberExpression (Identifier "sinon") (Identifier "stub")) [])
           []); reflexivity.
Defined.

(** X11. The visitor changes a call only when it is a require call or a
    proxyquire call whose first argument is a string literal for which the
    resolver gives a rewrite that is not empty; the new call has the same
    callee and that rewrite for its first argument. *)
Theorem visitor_only_rewrites_resolved_calls `{Host} (nodePath : node)
  (state : State) :
  transformMethodCall nodePath state ≠ nodePath →
  ∃ callee source rest parent rest',
    nodePath = CallExpression callee (StringLiteral source :: rest) ∧
    (isRequireCall nodePath = true ∨ isProxyquireCall nodePath = true) ∧
    returned (mapModule source state.(file_opts_filename) state.(opts))
    = Some parent ∧
    parent ≠ "" ∧
    transformMethodCall nodePath state
    = CallExpression callee (StringLiteral parent :: rest').
Proof.
  intros Hchanged.
  destruct (transformModulePath_cases (callArguments nodePath !! 0) state)
    as [[Hnone _]|(source & parent & Harg & Hparent & Hne & Hpath)].
  { by rewrite transformMethodCall_no_rewrite in Hchanged. }
  destruct (isRequireCall nodePath) eqn:Hreq.
  - destruct (isRequireCall_is_call _ Hreq) as (callee & arguments & ->).
    cbn [callArguments] in *.
    destruct arguments as [|first rest]; [done|]. injection Harg as ->.
    exists callee, source, rest, parent, rest. split_and!; [done|by left|done..|].
    rewrite transformMethodCall_require by done. by rewrite Hpath.
  - destruct (isProxyquireCall nodePath) eqn:Hprox.
    + destruct (isProxyquireCall_is_call _ Hprox) as (callee & arguments & ->).
      cbn [callArguments] in *.
      destruct arguments as [|first rest]; [done|]. injection Harg as ->.
      exists callee, source, rest, parent,
        (match rest with
         | ObjectExpression properties :: _ =>
             [transformObjectExpression parent properties state]
         | _ => rest
         end).
      split_and!; [done|by right|done..|].
      unfold transformMethodCall.
      rewrite transformRequireCall_not_require by done.
      rewrite (transformProxyquireCall_run _ _ _ parent) by done.
      by destruct rest as [|[| | | |properties|] rest].
    + exfalso. apply Hchanged. unfold transformMethodCall.
      rewrite transformRequireCall_not_require by done.
      by apply transformProxyquireCall_not_proxyquire.
Qed.

Lemma visitor_only_rewrites_resolved_calls_witness :
  ∃ callee source rest parent rest',
    CallExpression (Identifier "require") [StringLiteral "sub/sub1"]
    = CallExpression callee (StringLiteral source :: rest) ∧
    (isRequireCall
       (CallExpression (Identifier "require") [StringLiteral "sub/sub1"]) = true
     ∨ isProxyquireCall
         (CallExpression (Identifier "require") [StringLiteral "sub/sub1"]) = true) ∧
    returned (mapModule (H := exampleHost) source "unknown" (config exampleRoots []))
    = Some parent ∧
    parent ≠ "" ∧
    transformMethodCall (H := exampleHost)
      (CallExpression (Identifier "require") [StringLiteral "sub/sub1"])
      {| file_opts_filename := "unknown"; opts := config exampleRoots [] |}
    = CallExpression callee (StringLiteral parent :: rest').
Proof.
  apply (visitor_only_rewrites_resolved_calls (H := exampleHost)
           (CallExpression (Identifier "require") [StringLiteral "sub/sub1"])
           {| file_opts_filename := "unknown"; opts := config exampleRoots [] |}).
  vm_compute. discriminate.
Defined.

(** X12. A require call whose specifier gets a rewrite keeps its callee and
    every argument after the specifier. *)
Theorem require_call_keeps_later_arguments `{Host} (state : State)
  (callee : node) (source parent : string) (rest : list node) :
  isRequireCall (CallExpression callee (StringLiteral source :: rest)) = true →
  returned (mapModule source state.(file_opts_filename) state.(opts))
  = Some parent →
  parent ≠ "" →
  transformMethodCall (CallExpression callee (StringLiteral source :: rest)) state
  = CallExpression callee (StringLiteral parent :: rest).
Proof.
  intros Hreq Hparent Hne. rewrite transformMethodCall_require by done.
  cbn [lookup list_lookup].
  rewrite (transformModulePath_literal state source None
             state.(file_opts_filename)) by done.
  by rewrite Hparent, decide_False.
Qed.

Lemma require_call_keeps_later_arguments_witness :
  transformMethodCall (H := exampleHost)
    (CallExpression
       (MemberExpression (Identifier "require") (Identifier "resolve"))
       [ StringLiteral "sub/sub1"; Identifier "options" ])
    {| file_opts_filename := "unknown"; opts := config exampleRoots [] |}
  = CallExpression
      (MemberExpression (Identifier "require") (Identifier "resolve"))
      [ StringLiteral "./test/examples/components/sub/sub1";
        Identifier "options" ].
Proof.
  apply (require_call_keeps_later_arguments (H := exampleHost)
           {| file_opts_filename := "unknown"; opts := config exampleRoots [] |}
           (MemberExpression (Identifier "require") (Identifier "resolve"))
           "sub/sub1" "./test/examples/components/sub/sub1"
           [Identifier "options"]);
    [reflexivity|reflexivity|discriminate].
Defined.

(** X13. A proxyquire call whose second argument is not an object literal
    (the stubs come in a variable, or there are none): when the specifier
    gets a rewrite the call keeps its callee and every argument after the
    specifier. *)
Theorem proxyquire_call_without_stub_table `{Host} (state : State)
  (callee : node) (source parent : string) (rest : list node) :
  isProxyquireCall (CallExpression callee (StringLiteral source :: rest)) = true →
  (∀ properties, head rest ≠ Some (ObjectExpression properties)) →
  returned (mapModule source state.(file_opts_filename) state.(opts))
  = Some parent →
  parent ≠ "" →
  transformMethodCall (CallExpression callee (StringLiteral source :: rest)) state
  = CallExpression callee (StringLiteral parent :: rest).
Proof.
  intros Hcall Htable Hparent Hne. unfold transformMethodCall.
  rewrite transformRequireCall_not_require
    by (by apply isProxyquireCall_not_require).
  rewrite (transformProxyquireCall_run _ _ _ parent); [|done|].
  - destruct rest as [|[| | | |properties|] rest]; try done.
    by destruct (Htable properties).
  - cbn [lookup list_lookup].
    rewrite (transformModulePath_literal state source None
               state.(file_opts_filename)) by done.
    by rewrite Hparent, decide_False.
Qed.

Lemma proxyquire_call_without_stub_table_witness :
  transformMethodCall (H := exampleHost)
    (CallExpression (Identifier "proxyquire")
       [ StringLiteral "c1"; Identifier "stubs"; Identifier "extra" ])
    {| file_opts_filename := "unknown"; opts := config exampleRoots [] |}
  = CallExpression (Identifier "proxyquire")
      [ StringLiteral "./test/examples/components/c1";
        Identifier "stubs"; Identifier "extra" ].
Proof.
  apply (proxyquire_call_without_stub_table (H := exampleHost)
           {| file_opts_filename := "unknown"; opts := config exampleRoots [] |}
           (Identifier "proxyquire") "c1" "./test/examples/components/c1"
           [Identifier "stubs"; Identifier "extra"]);
    [reflexivity|discriminate|reflexivity|discriminate].
Defined.


(** X15. A specifier for which the resolver gives nothing, or the empty
    string, is left as it is in an import declaration and in a call; in a
    proxyquire call the stub table then stays untouched with it. *)
Theorem unresolved_specifier_left_alone `{Host} (state : State)
  (source : string) :
  returned (mapModule source state.(file_opts_filename) state.(opts)) = None
  ∨ returned (mapModule source state.(file_opts_filename) state.(opts))
    = Some "" →
  (∀ specifiers,
     transformImportCall (ImportDeclaration specifiers (StringLiteral source)) state
     = ImportDeclaration specifiers (StringLiteral source)) ∧
  (∀ callee rest,
     transformMethodCall (CallExpression callee (StringLiteral source :: rest)) state
     = CallExpression callee (StringLiteral source :: rest)).
Proof.
  intros Hnone.
  assert (transformModulePath (Some (StringLiteral source)) state None = None)
    as Hpath.
  { rewrite (transformModulePath_literal state source None
               state.(file_opts_filename)) by done.
    by destruct Hnone as [->| ->]. }
  split.
  - intros specifiers. unfold transformImportCall. cbn [importSource].
    by rewrite Hpath.
  - intros callee rest. by apply transformMethodCall_no_rewrite.
Qed.

Lemma unresolved_specifier_left_alone_witness :
  let state :=
    {| file_opts_filename := "unknown";
       opts := config exampleRoots [("legacy", "npm:")] |} in
  (∀ specifiers,
     transformImportCall (H := exampleHost)
       (ImportDeclaration specifiers (StringLiteral "legacy")) state
     = ImportDeclaration specifiers (StringLiteral "legacy")) ∧
  (∀ callee rest,
     transformMethodCall (H := exampleHost)
       (CallExpression callee (StringLiteral "legacy" :: rest)) state
     = CallExpression callee (StringLiteral "legacy" :: rest)).
Proof.
  apply (unresolved_specifier_left_alone (H := exampleHost)
           {| file_opts_filename := "unknown";
              opts := config exampleRoots [("legacy", "npm:")] |} "legacy").
  right. reflexivity.
Defined.

(** X16. An import declaration and a require call are rewritten alike: the
    call, with any first argument, comes out with the source the import
    declaration of that argument comes out with, and with its other
    arguments kept. *)
Theorem import_and_require_rewritten_alike `{Host} (state : State)
  (callee module : node) (rest specifiers : list node) :
  isRequireCall (CallExpression callee (module :: rest)) = true →
  transformMethodCall (CallExpression callee (module :: rest)) state
  = CallExpression callee
      (importSource
         (transformImportCall (ImportDeclaration specifiers module) state)
       :: rest).
Proof.
  intros Hreq. rewrite transformMethodCall_require by done.
  unfold transformImportCall. cbn [lookup list_lookup importSource].
  by destruct (transformModulePath _ _ _).
Qed.

Lemma import_and_require_rewritten_alike_witness :
  transformMethodCall (H := exampleHost)
    (CallExpression (Identifier "require")
       [StringLiteral "utils/pad"; Identifier "x"])
    {| file_opts_filename := "lib/a.js"; opts := config [] exampleAliases |}
  = CallExpression (Identifier "require")
      [ importSource
          (transformImportCall (H := exampleHost)
             (ImportDeclaration [Identifier "pad"] (StringLiteral "utils/pad"))
             {| file_opts_filename := "lib/a.js";
                opts := config [] exampleAliases |});
        Identifier "x" ].
Proof.
  apply (import_and_require_rewritten_alike (H := exampleHost)
           {| file_opts_filename := "lib/a.js"; opts := config [] exampleAliases |}
           (Identifier "require") (StringLiteral "utils/pad")
           [Identifier "x"] [Identifier "pad"]).
  reflexivity.
Defined.

(** ** The options hook *)

Section OptionsHook.
Context `{Glob}.

(** The [reduce] puts the expansions of the entries one after the other. *)
Lemma resolveRootDirs_expand (rootDirs : list string) :
  resolveRootDirs rootDirs = rootDirs ≫= expandRoot.
Proof.
  unfold resolveRootDirs.
  enough (∀ resolvedDirs,
            foldl (λ resolvedDirs dirPath,
                     if hasMagic dirPath then resolvedDirs ++ sync dirPath
                     else resolvedDirs ++ [dirPath])
                  resolvedDirs rootDirs
            = resolvedDirs ++ (rootDirs ≫= expandRoot)) as Hfold
    by apply (Hfold []).
  induction rootDirs as [|dirPath rootDirs IH]; intros resolvedDirs.
  - cbn [foldl mbind list_bind]. by rewrite (right_id_L [] (++)).
  - cbn [foldl]. rewrite bind_cons. unfold expandRoot at 1.
    destruct (hasMagic dirPath); by rewrite IH, <-(assoc_L (++)).
Qed.

(** Entries without magic stand for themselves. *)
Lemma expandRoot_plain (rootDirs : list string) :
  Forall (λ dirPath, hasMagic dirPath = false) rootDirs →
  rootDirs ≫= expandRoot = rootDirs.
Proof.
  induction 1 as [|dirPath rootDirs Hplain _ IH]; [done|].
  rewrite bind_cons, IH. unfold expandRoot. by rewrite Hplain.
Qed.

Lemma pluginOpts_eta (pluginOpts : PluginOpts) :
  {| root := root pluginOpts; alias := alias pluginOpts;
     extensions := extensions pluginOpts |} = pluginOpts.
Proof. by destruct pluginOpts. Qed.

(** The hook by cases on the first entry of the plugin. *)
Lemma manipulateOptions_cases (this : nat) (plugins : list pluginEntry) :
  (manipulateOptions this plugins = None ∧
   ∀ entry, entry ∈ plugins → entry.1 ≠ this)
  ∨ ∃ i found,
      plugins !! i = Some (this, found) ∧
      (∀ j entry, plugins !! j = Some entry → j < i → entry.1 ≠ this) ∧
      manipulateOptions this plugins
      = match found with
        | Some findPluginOptions =>
            match root findPluginOptions with
            | Some rootDirs =>
                Some (<[i := (this,
                              Some {| root := Some (rootDirs ≫= expandRoot);
                                      alias := alias findPluginOptions;
                                      extensions := extensions findPluginOptions |})]>
                        plugins)
            | None => Some plugins
            end
        | None => None
        end.
Proof.
  unfold manipulateOptions.
  destruct (list_find _ plugins) as [[i [this' found]]|] eqn:E.
  - right. apply list_find_Some in E as (Hi & Hthis & Hfirst).
    cbn [fst] in Hthis. subst this'. exists i, found.
    split_and!; [done|exact Hfirst|].
    destruct found as [findPluginOptions|]; [|done].
    destruct (root findPluginOptions); [|done].
    by rewrite resolveRootDirs_expand.
  - left. split; [done|]. intros entry Hin.
    apply list_find_None in E. eapply Forall_forall in E; [exact E|done].
Qed.

(** The first entry of a plugin is at one index. *)
Lemma first_entry_unique (this i i' : nat) (plugins : list pluginEntry)
  (found found' : option PluginOpts) :
  plugins !! i = Some (this, found) →
  (∀ j entry, plugins !! j = Some entry → j < i → entry.1 ≠ this) →
  plugins !! i' = Some (this, found') →
  (∀ j entry, plugins !! j = Some entry → j < i' → entry.1 ≠ this) →
  i' = i ∧ found' = found.
Proof.
  intros Hi Hfirst Hi' Hfirst'.
  destruct (Nat.lt_trichotomy i' i) as [Hlt|[->|Hlt]].
  - by destruct (Hfirst _ _ Hi' Hlt).
  - rewrite Hi in Hi'. by injection Hi' as <-.
  - by destruct (Hfirst' _ _ Hi Hlt).
Qed.

End OptionsHook.

(** X17. The hook on a plugin list whose first entry for the plugin, at
    index [i], has options with root directories: that entry gets the root
    directories with every glob pattern replaced, in place, by the
    directories it matches, in the order [glob.sync] gives them, and every
    other entry kept; [alias] and [extensions] stay as they are and so does
    every other entry of the list. *)
Theorem options_hook_expands_root_patterns `{Glob} (this i : nat)
  (plugins : list pluginEntry) (pluginOpts : PluginOpts)
  (rootDirs : list string) :
  plugins !! i = Some (this, Some pluginOpts) →
  (∀ j entry, plugins !! j = Some entry → j < i → entry.1 ≠ this) →
  root pluginOpts = Some rootDirs →
  manipulateOptions this plugins
  = Some (<[i := (this,
                  Some {| root := Some (rootDirs ≫= expandRoot);
                          alias := alias pluginOpts;
                          extensions := extensions pluginOpts |})]> plugins).
Proof.
  intros Hi Hfirst Hroot.
  destruct (manipulateOptions_cases this plugins)
    as [[_ Hnone]|(i' & found & Hi' & Hfirst' & ->)].
  { exfalso. apply (Hnone (this, Some pluginOpts)); [|done].
    by eapply list_elem_of_lookup_2. }
  destruct (first_entry_unique this i i' plugins _ _ Hi Hfirst Hi' Hfirst')
    as [-> ->].
  by rewrite Hroot.
Qed.

Lemma options_hook_expands_root_patterns_witness :
  manipulateOptions (H := exampleGlob) 7
    [ (3, None);
      (7, Some (config ["./src"; "./packages/*"; "./lib"] exampleAliases));
      (7, Some (config ["./other/*"] [])) ]
  = Some
      [ (3, None);
        (7, Some (config ["./src"; "./packages/core"; "./packages/ui"; "./lib"]
                    exampleAliases));
        (7, Some (config ["./other/*"] [])) ].
Proof.
  apply (options_hook_expands_root_patterns (H := exampleGlob) 7 1
           [ (3, None);
             (7, Some (config ["./src"; "./packages/*"; "./lib"] exampleAliases));
             (7, Some (config ["./other/*"] [])) ]
           (config ["./src"; "./packages/*"; "./lib"] exampleAliases)
           ["./src"; "./packages/*"; "./lib"]);
    [reflexivity| |reflexivity].
  intros j entry Hj Hlt. destruct j as [|j]; [|lia].
  injection Hj as <-. discriminate.
Defined.

(** X18. When the hook does not throw and no root directory of the plugin's
    entries is a glob pattern, it leaves the plugin list as it is. *)
Theorem options_hook_without_patterns `{Glob} (this : nat)
  (plugins plugins' : list pluginEntry) :
  manipulateOptions this plugins = Some plugins' →
  (∀ pluginOpts rootDirs,
     (this, Some pluginOpts) ∈ plugins → root pluginOpts = Some rootDirs →
     Forall (λ dirPath, hasMagic dirPath = false) rootDirs) →
  plugins' = plugins.
Proof.
  intros Hrun Hplain.
  destruct (manipulateOptions_cases this plugins)
    as [[Hnone _]|(i & found & Hi & _ & Hcase)]; [congruence|].
  rewrite Hcase in Hrun.
  destruct found as [findPluginOptions|]; [|done].
  destruct (root findPluginOptions) as [rootDirs|] eqn:Hroot;
    [|by injection Hrun as <-].
  injection Hrun as <-.
  rewrite expandRoot_plain, <-Hroot, pluginOpts_eta.
  - by apply list_insert_id.
  - apply (Hplain findPluginOptions); [|done]. by eapply list_elem_of_lookup_2.
Qed.

Lemma options_hook_without_patterns_witness :
  manipulateOptions (H := exampleGlob) 7
    [ (7, Some (config ["./src"; "./lib"] exampleAliases)) ]
  = Some [ (7, Some (config ["./src"; "./lib"] exampleAliases)) ] ∧
  [ (7, Some (config ["./src"; "./lib"] exampleAliases)) ]
  = [ (7, Some (config ["./src"; "./lib"] exampleAliases)) ].
Proof.
  split; [reflexivity|].
  apply (options_hook_without_patterns (H := exampleGlob) 7
           [ (7, Some (config ["./src"; "./lib"] exampleAliases)) ]
           [ (7, Some (config ["./src"; "./lib"] exampleAliases)) ]);
    [reflexivity|].
  intros pluginOpts rootDirs Hin Hroot.
  apply list_elem_of_singleton in Hin. injection Hin as ->.
  injection Hroot as <-. by repeat constructor.
Defined.

(** X19. Running the hook again changes nothing more, provided no directory
    [glob.sync] gives is itself a glob pattern. *)
Theorem options_hook_idempotent `{Glob} (this : nat)
  (plugins plugins' : list pluginEntry) :
  (∀ dirPath d, d ∈ sync dirPath → hasMagic d = false) →
  manipulateOptions this plugins = Some plugins' →
  manipulateOptions this plugins' = Some plugins'.
Proof.
  intros Hsync Hrun.
  destruct (manipulateOptions_cases this plugins)
    as [[Hnone _]|(i & found & Hi & Hfirst & Hcase)]; [congruence|].
  rewrite Hcase in Hrun.
  destruct found as [findPluginOptions|]; [|done].
  destruct (root findPluginOptions) as [rootDirs|] eqn:Hroot.
  - injection Hrun as <-.
    set (expanded := {| root := Some (rootDirs ≫= expandRoot);
                        alias := alias findPluginOptions;
                        extensions := extensions findPluginOptions |}).
    assert (i < length plugins) as Hlen by (by eapply lookup_lt_Some).
    destruct (manipulateOptions_cases this (<[i := (this, Some expanded)]> plugins))
      as [[_ Hnone]|(i' & found' & Hi' & Hfirst' & ->)].
    { exfalso. apply (Hnone (this, Some expanded)); [|done].
      eapply list_elem_of_lookup_2. by apply list_lookup_insert_eq. }
    destruct (first_entry_unique this i i' (<[i := (this, Some expanded)]> plugins)
                (Some expanded) found') as [-> ->]; [| |done|done|].
    + by apply list_lookup_insert_eq.
    + intros j entry Hj Hlt. rewrite list_lookup_insert_ne in Hj by lia.
      by eapply Hfirst.
    + cbn [root alias extensions expanded]. rewrite list_insert_insert_eq.
      rewrite expandRoot_plain; [done|].
      apply Forall_forall. intros d (dirPath & Hd & _)%list_elem_of_bind.
      unfold expandRoot in Hd. destruct (hasMagic dirPath) eqn:Hmagic.
      * by eapply Hsync.
      * by apply list_elem_of_singleton in Hd as ->.
  - injection Hrun as <-. exact Hcase.
Qed.

Lemma options_hook_idempotent_witness :
  manipulateOptions (H := exampleGlob) 7
    [ (7, Some (config ["./src"; "./packages/core"; "./packages/ui"] [])) ]
  = Some [ (7, Some (config ["./src"; "./packages/core"; "./packages/ui"] [])) ].
Proof.
  apply (options_hook_idempotent (H := exampleGlob) 7
           [ (7, Some (config ["./src"; "./packages/*"] [])) ]
           [ (7, Some (config ["./src"; "./packages/core"; "./packages/ui"] [])) ]);
    [|reflexivity].
  intros dirPath d Hd. cbn [sync exampleGlob] in Hd.
  destruct (decide (dirPath = "./packages/*")); [|by apply elem_of_nil in Hd].
  apply list_elem_of_In in Hd. simpl in Hd.
  by destruct Hd as [<-|[<-|[]]].
Defined.

(** X20. The hook throws exactly when the plugin list has no entry for the
    plugin, or the first entry for it has no options. *)
Theorem options_hook_throws_iff `{Glob} (this : nat)
  (plugins : list pluginEntry) :
  manipulateOptions this plugins = None
  ↔ (∀ entry, entry ∈ plugins → entry.1 ≠ this)
    ∨ ∃ i, plugins !! i = Some (this, None) ∧
           ∀ j entry, plugins !! j = Some entry → j < i → entry.1 ≠ this.
Proof.
  destruct (manipulateOptions_cases this plugins)
    as [[Hrun Hnone]|(i & found & Hi & Hfirst & Hcase)].
  - split; [by left|done].
  - rewrite Hcase. split.
    + intros Hthrows. right. exists i. split; [|done].
      destruct found as [findPluginOptions|]; [|done].
      by destruct (root findPluginOptions).
    + intros [Hnone|(i' & Hi' & Hfirst')].
      * exfalso. apply (Hnone (this, found)); [|done].
        by eapply list_elem_of_lookup_2.
      * by destruct (first_entry_unique this i i' plugins _ _ Hi Hfirst Hi' Hfirst')
          as [_ <-].
Qed.

(** ** The two versions of the visitors *)

Section Versions.
Context `{Host}.

Lemma inline_resolveStub (parent : string) (state : State) (stub : property) :
  Inline.resolveStub parent state stub = rewriteStub state.(opts) parent stub.
Proof.
  destruct stub as [[key| | | | |] value|argument]; try done.
  unfold Inline.resolveStub, rewriteStub, truthy.
  destruct (returned _) as [rewritten|]; [|done].
  by case_decide; [rewrite bool_decide_eq_true_2|rewrite bool_decide_eq_false_2].
Qed.

(** The first argument of a call as both versions read it. *)
Lemma first_argument_cases (arguments : list node) (state : State) :
  (transformModulePath (arguments !! 0) state None = None ∧
   ∀ callee,
     Inline.transformRequireCall (CallExpression callee arguments) state
     = CallExpression callee arguments ∧
     Inline.transformProxyquireCall (CallExpression callee arguments) state
     = CallExpression callee arguments)
  ∨ ∃ source rest parent,
      arguments = StringLiteral source :: rest ∧
      returned (mapModule source state.(file_opts_filename) state.(opts))
      = Some parent ∧
      parent ≠ "" ∧
      transformModulePath (arguments !! 0) state None
      = Some (StringLiteral parent).
Proof.
  destruct arguments as [|first rest].
  { left. split; [done|]. intros callee.
    unfold Inline.transformRequireCall, Inline.transformProxyquireCall.
    by split; destruct (negb _). }
  cbn [lookup list_lookup].
  destruct first as [source| | | | |];
    try (left; split; [done|]; intros callee;
         unfold Inline.transformRequireCall, Inline.transformProxyquireCall;
         by split; destruct (negb _)).
  rewrite (transformModulePath_literal state source None
             state.(file_opts_filename)) by done.
  unfold Inline.transformRequireCall, Inline.transformProxyquireCall, truthy.
  cbn [callArguments lookup list_lookup].
  destruct (returned _) as [parent|] eqn:E.
  - destruct (decide (parent = "")) as [->|Hne].
    + left. split; [done|]. intros callee. by split; destruct (negb _).
    + right. by exists source, rest, parent.
  - left. split; [done|]. intros callee. by split; destruct (negb _).
Qed.

Lemma inline_transformRequireCall_run (callee : node) (source parent : string)
  (rest : list node) (state : State) :
  isRequireCall (CallExpression callee (StringLiteral source :: rest)) = true →
  returned (mapModule source state.(file_opts_filename) state.(opts))
  = Some parent →
  parent ≠ "" →
  Inline.transformMethodCall
    (CallExpression callee (StringLiteral source :: rest)) state
  = CallExpression callee [StringLiteral parent].
Proof.
  intros Hreq Hparent Hne.
  assert (Inline.transformRequireCall
            (CallExpression callee (StringLiteral source :: rest)) state
          = CallExpression callee [StringLiteral parent]) as Hrun.
  { unfold Inline.transformRequireCall, truthy. rewrite Hreq.
    cbn [negb callArguments lookup list_lookup]. rewrite Hparent.
    by rewrite bool_decide_eq_false_2. }
  unfold Inline.transformMethodCall. rewrite Hrun.
  unfold Inline.transformProxyquireCall.
  destruct (isProxyquireCall (CallExpression callee [StringLiteral parent]))
    eqn:Hprox; [|done].
  apply isProxyquireCall_not_require in Hprox.
  rewrite (isImportMethodCall_callee "require" callee _
             (StringLiteral source :: rest)) in Hprox.
  unfold isRequireCall in Hreq, Hprox. congruence.
Qed.

Lemma inline_transformProxyquireCall_run (callee : node)
  (source parent : string) (rest : list node) (state : State) :
  isProxyquireCall (CallExpression callee (StringLiteral source :: rest)) = true →
  returned (mapModule source state.(file_opts_filename) state.(opts))
  = Some parent →
  parent ≠ "" →
  Inline.transformMethodCall
    (CallExpression callee (StringLiteral source :: rest)) state
  = match rest with
    | ObjectExpression stubs :: later =>
        CallExpression callee
          (StringLiteral parent
             :: ObjectExpression (rewriteStub state.(opts) parent <$> stubs)
             :: later)
    | _ => CallExpression callee (StringLiteral parent :: rest)
    end.
Proof.
  intros Hcall Hparent Hne.
  assert (Inline.transformRequireCall
            (CallExpression callee (StringLiteral source :: rest)) state
          = CallExpression callee (StringLiteral source :: rest)) as Hreq.
  { unfold Inline.transformRequireCall.
    by rewrite (isProxyquireCall_not_require _ Hcall). }
  unfold Inline.transformMethodCall. rewrite Hreq.
  unfold Inline.transformProxyquireCall, truthy. rewrite Hcall.
  cbn [negb callArguments lookup list_lookup]. rewrite Hparent.
  rewrite bool_decide_eq_false_2 by done. cbn [negb].
  destruct rest as [|[| | | |stubs|] later]; try done.
  cbn [lookup list_lookup drop].
  replace (map (Inline.resolveStub parent state) stubs)
    with (rewriteStub state.(opts) parent <$> stubs); [done|].
  apply Forall_fmap_ext, Forall_forall. intros stub _.
  symmetry. apply inline_resolveStub.
Qed.

End Versions.

(** X21. The visitors of [src/unnamed/part_000] and those of
    [src/src/index.js] do the same to a call, unless it is a require call
    with arguments after the specifier or a proxyquire call with arguments
    after an object-literal stub table. *)
Theorem visitor_versions_agree `{Host} (nodePath : node) (state : State) :
  (isRequireCall nodePath = true → length (callArguments nodePath) ≤ 1) →
  (isProxyquireCall nodePath = true →
   ∀ stubs, callArguments nodePath !! 1 = Some (ObjectExpression stubs) →
            length (callArguments nodePath) ≤ 2) →
  Inline.transformMethodCall nodePath state = transformMethodCall nodePath state.
Proof.
  intros Hrequire Hproxyquire.
  destruct nodePath as [| | |callee arguments| |]; try done.
  cbn [callArguments] in *.
  destruct (first_argument_cases arguments state)
    as [[Hnone Hinline]|(source & rest & parent & -> & Hparent & Hne & Hpath)].
  { rewrite transformMethodCall_no_rewrite by done.
    unfold Inline.transformMethodCall.
    destruct (Hinline callee) as [-> ->]. done. }
  destruct (isRequireCall (CallExpression callee (StringLiteral source :: rest)))
    eqn:Hreq.
  - rewrite (inline_transformRequireCall_run _ _ parent) by done.
    rewrite transformMethodCall_require, Hpath by done.
    specialize (Hrequire eq_refl). destruct rest; [done|simpl in Hrequire; lia].
  - destruct (isProxyquireCall (CallExpression callee (StringLiteral source :: rest)))
      eqn:Hprox.
    + rewrite (inline_transformProxyquireCall_run _ _ parent) by done.
      unfold transformMethodCall.
      rewrite transformRequireCall_not_require by done.
      rewrite (transformProxyquireCall_run _ _ _ parent) by done.
      destruct rest as [|[| | | |stubs|] later]; try done.
      cbn [lookup list_lookup].
      rewrite transformObjectExpression_stubs by done.
      specialize (Hproxyquire eq_refl stubs eq_refl).
      destruct later; [done|simpl in Hproxyquire; lia].
    + unfold transformMethodCall, Inline.transformMethodCall.
      rewrite transformRequireCall_not_require by done.
      rewrite transformProxyquireCall_not_proxyquire by done.
      unfold Inline.transformRequireCall. rewrite Hreq. cbn [negb].
      unfold Inline.transformProxyquireCall. by rewrite Hprox.
Qed.

Lemma visitor_versions_agree_witness :
  Inline.transformMethodCall (H := exampleHost)
    (CallExpression (Identifier "proxyquire")
       [ StringLiteral "c1";
         ObjectExpression
           [ ObjectProperty (StringLiteral "c2") (Identifier "stub") ] ])
    {| file_opts_filename := "lib/x.js"; opts := config exampleRoots [] |}
  = transformMethodCall (H := exampleHost)
      (CallExpression (Identifier "proxyquire")
         [ StringLiteral "c1";
           ObjectExpression
             [ ObjectProperty (StringLiteral "c2") (Identifier "stub") ] ])
      {| file_opts_filename := "lib/x.js"; opts := config exampleRoots [] |}.
Proof.
  apply (visitor_versions_agree (H := exampleHost)
           (CallExpression (Identifier "proxyquire")
              [ StringLiteral "c1";
                ObjectExpression
                  [ ObjectProperty (StringLiteral "c2") (Identifier "stub") ] ])
           {| file_opts_filename := "lib/x.js"; opts := config exampleRoots [] |}).
  - intros Hreq. vm_compute in Hreq. discriminate.
  - intros _ stubs _. simpl. lia.
Defined.

(** X22. Where the two versions part on a require call: with a rewrite for
    the specifier, the visitors of [src/unnamed/part_000] give a call with
    the rewritten specifier as its one argument, so that every later
    argument is lost. *)
Theorem inline_require_call_drops_later_arguments `{Host} (state : State)
  (callee : node) (source parent : string) (rest : list node) :
  isRequireCall (CallExpression callee (StringLiteral source :: rest)) = true →
  returned (mapModule source state.(file_opts_filename) state.(opts))
  = Some parent →
  parent ≠ "" →
  Inline.transformMethodCall
    (CallExpression callee (StringLiteral source :: rest)) state
  = CallExpression callee [StringLiteral parent].
Proof. apply inline_transformRequireCall_run. Qed.

Lemma inline_require_call_drops_later_arguments_witness :
  Inline.transformMethodCall (H := exampleHost)
    (CallExpression
       (MemberExpression (Identifier "require") (Identifier "resolve"))
       [ StringLiteral "sub/sub1"; Identifier "options" ])
    {| file_opts_filename := "unknown"; opts := config exampleRoots [] |}
  = CallExpression
      (MemberExpression (Identifier "require") (Identifier "resolve"))
      [ StringLiteral "./test/examples/components/sub/sub1" ].
Proof.
  apply (inline_require_call_drops_later_arguments (H := exampleHost)
           {| file_opts_filename := "unknown"; opts := config exampleRoots [] |}
           (MemberExpression (Identifier "require") (Identifier "resolve"))
           "sub/sub1" "./test/examples/components/sub/sub1"
           [Identifier "options"]);
    [reflexivity|reflexivity|discriminate].
Defined.

(** X23. Where the two versions part on a proxyquire call with a stub
    table: the visitors of [src/unnamed/part_000] keep the arguments after
    the table, those of [src/src/index.js] give a call of two arguments; the
    specifier and the table come out the same in both. *)
Theorem proxyquire_arguments_after_stub_table `{Host} (state : State)
  (callee : node) (source parent : string) (stubs : list property)
  (later : list node) :
  isProxyquireCall
    (CallExpression callee
       (StringLiteral source :: ObjectExpression stubs :: later)) = true →
  returned (mapModule source state.(file_opts_filename) state.(opts))
  = Some parent →
  parent ≠ "" →
  ∃ stubs',
    Inline.transformMethodCall
      (CallExpression callee
         (StringLiteral source :: ObjectExpression stubs :: later)) state
    = CallExpression callee
        (StringLiteral parent :: ObjectExpression stubs' :: later) ∧
    transformMethodCall
      (CallExpression callee
         (StringLiteral source :: ObjectExpression stubs :: later)) state
    = CallExpression callee [StringLiteral parent; ObjectExpression stubs'].
Proof.
  intros Hcall Hparent Hne.
  exists (rewriteStub state.(opts) parent <$> stubs). split.
  - by rewrite (inline_transformProxyquireCall_run _ _ parent).
  - by apply proxyquire_stubs_rewritten.
Qed.

Lemma proxyquire_arguments_after_stub_table_witness :
  ∃ stubs',
    Inline.transformMethodCall (H := exampleHost)
      (CallExpression (Identifier "proxyquire")
         [ StringLiteral "c1";
           ObjectExpression
             [ ObjectProperty (StringLiteral "c2") (Identifier "stub") ];
           Identifier "extra" ])
      {| file_opts_filename := "unknown"; opts := config exampleRoots [] |}
    = CallExpression (Identifier "proxyquire")
        [ StringLiteral "./test/examples/components/c1";
          ObjectExpression stubs'; Identifier "extra" ] ∧
    transformMethodCall (H := exampleHost)
      (CallExpression (Identifier "proxyquire")
         [ StringLiteral "c1";
           ObjectExpression
             [ ObjectProperty (StringLiteral "c2") (Identifier "stub") ];
           Identifier "extra" ])
      {| file_opts_filename := "unknown"; opts := config exampleRoots [] |}
    = CallExpression (Identifier "proxyquire")
        [ StringLiteral "./test/examples/components/c1";
          ObjectExpression stubs' ].
Proof.
  apply (proxyquire_arguments_after_stub_table (H := exampleHost)
           {| file_opts_filename := "unknown"; opts := config exampleRoots [] |}
           (Identifier "proxyquire") "c1" "./test/examples/components/c1"
           [ ObjectProperty (StringLiteral "c2") (Identifier "stub") ]
           [ Identifier "extra" ]);
    [reflexivity|reflexivity|discriminate].
Defined.
